(** * The bracket-indexed form decoder of [4_nested_union/model.py]

    A shallow embedding of [indexed_dicts_to_lists], [NestedDict],
    [Person.json_editor_parse], the [Contact._type] property and the
    field declarations of [Address], [Contact], [Friend], [FamilyMember]
    and [Person], together with the facts proved about them.  The
    decoders of [1_form_submission/model.py] and [2_nested_model/model.py]
    and the handlers of [2_nested_model/app.py] are embedded as well, in
    the modules [FormSubmission], [NestedModel] and [App]. *)

From Stdlib Require Import String Ascii List ZArith Bool Arith Lia Permutation.
From Stdlib Require Import Decimal DecimalString DecimalNat DecimalZ.
Import ListNotations.
Local Open Scope string_scope.
Local Open Scope list_scope.

(** ** Python values and exceptions *)

Module Py.

(** The two dictionary classes of the source: the builtin [dict] and the
    subclass [NestedDict] whose [__missing__] creates the entry. *)
Inductive dict_class := Plain | NestedDict.

(** The values that flow through the decoder.  A dictionary is an
    association list in insertion order, which is the order Python's
    [keys()], [values()] and [items()] iterate in. *)
Unset Elimination Schemes.
Inductive pyval :=
| PNone
| PInt (z : Z)
| PStr (s : string)
| PList (xs : list pyval)
| PDict (cls : dict_class) (items : list (string * pyval)).
Set Elimination Schemes.

Inductive exn :=
| ValueError (msg : string)
| TypeError (msg : string)
| KeyError (key : string).

(** A computation either returns or raises. *)
Inductive res (A : Type) :=
| Ok (a : A)
| Raise (e : exn).
Arguments Ok {A} a.
Arguments Raise {A} e.

Definition bind {A B} (m : res A) (k : A -> res B) : res B :=
  match m with
  | Ok a => k a
  | Raise e => Raise e
  end.

(** *** Strings *)

Definition startswith (p s : string) : bool := String.prefix p s.

Definition endswith (suf s : string) : bool :=
  let n := String.length s in
  let m := String.length suf in
  Nat.leb m n && String.eqb (substring (n - m) m s) suf.

Definition removeprefix (p s : string) : string :=
  if startswith p s
  then substring (String.length p) (String.length s - String.length p) s
  else s.

Definition removesuffix (suf s : string) : string :=
  if endswith suf s
  then substring 0 (String.length s - String.length suf) s
  else s.

(** [s.split(sep)] for a non-empty [sep]: the separators are found from
    the left and do not overlap.  [skip] counts the characters of a
    separator still to be passed over, [cur] is the piece being read. *)
Fixpoint split_go (sep : string) (skip : nat) (cur s : string) : list string :=
  match s with
  | EmptyString => [cur]
  | String c s' =>
      match skip with
      | S n => split_go sep n cur s'
      | O =>
          if String.prefix sep s
          then cur :: split_go sep (String.length sep - 1) "" s'
          else split_go sep 0 (cur ++ String c "") s'
      end
  end.

Definition split (sep s : string) : list string := split_go sep 0 "" s.

Definition is_digit (c : ascii) : bool :=
  let n := nat_of_ascii c in Nat.leb 48 n && Nat.leb n 57.

Fixpoint all_digits (s : string) : bool :=
  match s with
  | EmptyString => true
  | String c s' => is_digit c && all_digits s'
  end.

(** [s.isdigit()] on an ASCII text: false on the empty string, true when
    every character is one of the digits 0 to 9.  (Python's test is also
    true of digits outside ASCII, which this one does not know.) *)
Definition isdigit (s : string) : bool :=
  match s with
  | EmptyString => false
  | _ => all_digits s
  end.

Fixpoint int_acc (acc : nat) (s : string) : nat :=
  match s with
  | EmptyString => acc
  | String c s' => int_acc (10 * acc + (nat_of_ascii c - 48)) s'
  end.

(** [int(s)] on a string of decimal digits (the source calls it only
    behind an [isdigit] test). *)
Definition int (s : string) : nat := int_acc 0 s.

(** *** Dictionaries *)

Definition keys {A} (items : list (string * A)) : list string := map fst items.
Definition values {A} (items : list (string * A)) : list A := map snd items.

Fixpoint dict_get {A} (k : string) (items : list (string * A)) : option A :=
  match items with
  | [] => None
  | (k', v) :: rest => if String.eqb k k' then Some v else dict_get k rest
  end.

(** [d[k] = v]: an existing key keeps its place, a new one goes last. *)
Fixpoint dict_set {A} (k : string) (v : A) (items : list (string * A)) : list (string * A) :=
  match items with
  | [] => [(k, v)]
  | (k', v') :: rest =>
      if String.eqb k k' then (k', v) :: rest else (k', v') :: dict_set k v rest
  end.

(** *** Lists *)

(** [while len(xs) <= i: xs.append(x)] *)
Definition pad (i : nat) (x : pyval) (xs : list pyval) : list pyval :=
  xs ++ repeat x (S i - length xs).

(** [xs[i] = v] for [i < len(xs)]. *)
Fixpoint list_set (i : nat) (v : pyval) (xs : list pyval) : list pyval :=
  match xs, i with
  | [], _ => []
  | _ :: rest, O => v :: rest
  | x :: rest, S j => x :: list_set j v rest
  end.

(** [type(v)()]: the empty value of [v]'s class. *)
Definition type_call (v : pyval) : pyval :=
  match v with
  | PNone => PNone
  | PInt _ => PInt 0
  | PStr _ => PStr ""
  | PList _ => PList []
  | PDict c _ => PDict c []
  end.

Definition type_name (v : pyval) : string :=
  match v with
  | PNone => "NoneType"
  | PInt _ => "int"
  | PStr _ => "str"
  | PList _ => "list"
  | PDict Plain _ => "dict"
  | PDict NestedDict _ => "NestedDict"
  end.

(** [*init, last = xs] *)
Fixpoint unpack_last {A} (xs : list A) : option (list A * A) :=
  match xs with
  | [] => None
  | [x] => Some ([], x)
  | x :: rest =>
      match unpack_last rest with
      | Some (init, l) => Some (x :: init, l)
      | None => None
      end
  end.

End Py.
Import Py.

Notation "x <- m ;; k" := (bind m (fun x => k))
  (at level 61, m at next level, right associativity).

(** ** [indexed_dicts_to_lists] *)

(** [all(sub_k.isdigit() for sub_k in d.keys())] *)
Definition all_keys_digit (items : list (string * pyval)) : bool :=
  forallb isdigit (keys items).

Definition is_empty {A} (xs : list A) : bool :=
  match xs with [] => true | _ => false end.

Fixpoint indexed_dicts_to_lists (d : pyval) : pyval :=
  match d with
  | PDict _ items =>
      if negb (is_empty items) && all_keys_digit items
      then PList (map (fun kv => indexed_dicts_to_lists (snd kv)) items)
      else
        PDict Plain
          (fold_left
             (fun result kv =>
                dict_set (fst kv)
                  (match snd kv with
                   | PDict c sub =>
                       if all_keys_digit sub
                       then PList (map (fun skv => indexed_dicts_to_lists (snd skv)) sub)
                       else indexed_dicts_to_lists (snd kv)
                   | PList xs => PList (map indexed_dicts_to_lists xs)
                   | _ => snd kv
                   end)
                  result)
             items [])
  | _ => d
  end.

(** ** [Person.json_editor_parse] *)

Definition list_index_error : exn := ValueError "List index must be a number".

Definition no_item_assignment (parent : pyval) : exn :=
  TypeError ("'" ++ type_name parent ++ "' object does not support item assignment").

Definition not_subscriptable (parent : pyval) : exn :=
  match parent with
  | PStr _ => TypeError "string indices must be integers, not 'str'"
  | _ => TypeError ("'" ++ type_name parent ++ "' object is not subscriptable")
  end.

(** The walk of one key: [sub_ks] are the segments before the last one,
    [leaf] the last one.  The source follows references into the tree and
    mutates the node reached; here the updated subtree is rebuilt on the
    way back.  *)
Fixpoint walk (parent : pyval) (sub_ks : list string) (leaf : string) (v : pyval)
  : res pyval :=
  match sub_ks with
  | [] =>
      match parent with
      | PList xs =>
          if negb (isdigit leaf) then Raise list_index_error
          else Ok (PList (list_set (int leaf) v (pad (int leaf) (type_call v) xs)))
      | PDict c items => Ok (PDict c (dict_set leaf v items))
      | _ => Raise (no_item_assignment parent)
      end
  | sub_k :: rest =>
      match parent with
      | PList xs =>
          if negb (isdigit sub_k) then Raise list_index_error
          else
            let sub_type :=
              match rest with
              | next :: _ => if isdigit next then PList [] else PDict NestedDict []
              | [] => PDict NestedDict []
              end in
            let xs' := pad (int sub_k) sub_type xs in
            child <- walk (nth (int sub_k) xs' PNone) rest leaf v ;;
            Ok (PList (list_set (int sub_k) child xs'))
      | PDict c items =>
          match dict_get sub_k items with
          | Some sub =>
              child <- walk sub rest leaf v ;;
              Ok (PDict c (dict_set sub_k child items))
          | None =>
              match c with
              | NestedDict =>
                  child <- walk (PDict NestedDict []) rest leaf v ;;
                  Ok (PDict c (dict_set sub_k child items))
              | Plain => Raise (KeyError sub_k)
              end
          end
      | _ => Raise (not_subscriptable parent)
      end
  end.

(** [k.startswith("root[") and k.endswith("]")] *)
Definition is_structured (k : string) : bool :=
  startswith "root[" k && endswith "]" k.

(** [k.removeprefix("root[").removesuffix("]").split("][")] *)
Definition segments (k : string) : list string :=
  split "][" (removesuffix "]" (removeprefix "root[" k)).

(** The body of the [for k, v in data.items()] loop. *)
Definition parse_item (out : pyval) (kv : string * pyval) : res pyval :=
  let (k, v) := kv in
  if is_structured k then
    match unpack_last (segments k) with
    | Some (sub_ks, leaf) => walk out sub_ks leaf v
    | None => Raise (ValueError "not enough values to unpack")
    end
  else walk out [] k v.

Fixpoint parse_items (out : pyval) (items : list (string * pyval)) : res pyval :=
  match items with
  | [] => Ok out
  | kv :: rest => out' <- parse_item out kv ;; parse_items out' rest
  end.

Definition json_editor_parse (data : pyval) : res pyval :=
  match data with
  | PDict _ items =>
      out <- parse_items (PDict NestedDict []) items ;;
      Ok (indexed_dicts_to_lists out)
  | _ => Ok data
  end.

(** A flat form: the submitted pairs, in submission order. *)
Definition form (pairs : list (string * string)) : pyval :=
  PDict Plain (map (fun kv => (fst kv, PStr (snd kv))) pairs).

(** ** The [Contact] classes and the read-only [_type] property *)

Inductive contact_class := ContactCls | FriendCls | FamilyMemberCls.

(** [cls.__name__] *)
Definition class_name (cls : contact_class) : string :=
  match cls with
  | ContactCls => "Contact"
  | FriendCls => "Friend"
  | FamilyMemberCls => "FamilyMember"
  end.

(** [cls.__subclasses__()], in declaration order. *)
Definition direct_subclasses (cls : contact_class) : list contact_class :=
  match cls with
  | ContactCls => [FriendCls; FamilyMemberCls]
  | _ => []
  end.

(** [Contact.get_subclasses]: the class itself when asked for, then the
    subclasses' own enumerations.  [depth] bounds the height of the class
    tree; the three classes make it at most 3. *)
Fixpoint get_subclasses_upto (depth : nat) (cls : contact_class) (include_self : bool)
  : list contact_class :=
  (if include_self then [cls] else []) ++
  match depth with
  | O => []
  | S n => flat_map (fun sub => get_subclasses_upto n sub true) (direct_subclasses cls)
  end.

Definition get_subclasses (cls : contact_class) (include_self : bool) : list contact_class :=
  get_subclasses_upto 3 cls include_self.

(** The tags of [get_annotated_subclass_types]: [pydantic.Tag(c.__name__)]. *)
Definition get_annotated_subclass_types (cls : contact_class) (include_self : bool)
  : list (string * contact_class) :=
  map (fun c => (class_name c, c)) (get_subclasses cls include_self).

(** [get_discriminator_value] on decoder values.  None of them has a
    [_type] attribute, so the [getattr] branch yields [None]. *)
Definition get_discriminator_value (v : pyval) : pyval :=
  match v with
  | PDict _ items =>
      match dict_get "_type" items with
      | Some t => t
      | None => PNone
      end
  | _ => PNone
  end.

Section Schema.

(** [datetime.datetime] and pydantic's conversion of an input value to
    it belong to the libraries; the schema is parametrised by them. *)
Variable datetime : Type.
Variable to_datetime : pyval -> option datetime.

Record Address := {
  house_number : Z;
  street : string;
  city : string
}.

Inductive Contact :=
| BaseContact (name : string)
| Friend (name : string) (known_since : datetime)
| FamilyMember (name : string) (relationship : string).

Record Person := {
  name : string;
  age : Z;
  job : string;
  address : option Address;
  hobbies : list string;
  contacts : list Contact
}.

Definition class_of (self : Contact) : contact_class :=
  match self with
  | BaseContact _ => ContactCls
  | Friend _ _ => FriendCls
  | FamilyMember _ _ => FamilyMemberCls
  end.

(** The getter of the computed field: [self.__class__.__name__]. *)
Definition _type (self : Contact) : string := class_name (class_of self).

(** The setter.  Its result would be the instance after the assignment;
    both paths raise. *)
Definition _type_setter (self : Contact) (v : string) : res Contact :=
  if negb (String.eqb v (class_name (class_of self)))
  then Raise (ValueError ("Incorrectly loading a " ++ v ++ " as "
                          ++ class_name (class_of self) ++ " object"))
  else Raise (ValueError "Cannot set _type attribute directly").

(** *** Validation of the declared fields

    The model of pydantic's validation of these declarations: the
    error types and locations are pydantic's, every field is visited,
    and the errors of all fields are collected. *)

Inductive loc_item := LocField (name : string) | LocIndex (i : nat).

Inductive error_type :=
| missing
| string_type
| int_type
| int_parsing
| greater_than_equal
| datetime_from_date_parsing
| datetime_type
| list_type
| model_type
| union_tag_not_found
| union_tag_invalid
| value_error.

Record ErrorDetails := {
  err_type : error_type;
  err_loc : list loc_item
}.

Inductive validated (A : Type) :=
| Valid (a : A)
| Invalid (errors : list ErrorDetails).
Arguments Valid {A} a.
Arguments Invalid {A} errors.

Definition fail {A} (t : error_type) : validated A :=
  Invalid [{| err_type := t; err_loc := [] |}].

(** Errors raised below a field or an index carry it in front. *)
Definition under {A} (l : loc_item) (r : validated A) : validated A :=
  match r with
  | Valid a => Valid a
  | Invalid errors =>
      Invalid (map (fun e => {| err_type := err_type e; err_loc := l :: err_loc e |}) errors)
  end.

Definition vmap {A B} (f : A -> B) (r : validated A) : validated B :=
  match r with
  | Valid a => Valid (f a)
  | Invalid errors => Invalid errors
  end.

(** The next field is validated whatever the earlier ones gave. *)
Definition and_field {A B} (rf : validated (A -> B)) (ra : validated A) : validated B :=
  match rf, ra with
  | Valid f, Valid a => Valid (f a)
  | Valid _, Invalid errors => Invalid errors
  | Invalid errors, Valid _ => Invalid errors
  | Invalid errors, Invalid errors' => Invalid (errors ++ errors')
  end.

(** [str] *)
Definition validate_str (v : pyval) : validated string :=
  match v with
  | PStr s => Valid s
  | _ => fail string_type
  end.

(** A string is read as an integer when it is an optional minus sign
    followed by decimal digits.  This is the part of pydantic's reading
    that the statements below use: pydantic reads some other texts as
    well (a plus sign, blanks around the number, underscores) and reads
    no text of more than 4300 characters, see [short_int_text]. *)
Definition int_from_str (s : string) : option Z :=
  option_map Z.of_int (NilZero.int_of_string s).

(** [int] *)
Definition validate_int (v : pyval) : validated Z :=
  match v with
  | PInt z => Valid z
  | PStr s =>
      match int_from_str s with
      | Some z => Valid z
      | None => fail int_parsing
      end
  | _ => fail int_type
  end.

(** [pydantic.NonNegativeInt] *)
Definition validate_non_negative_int (v : pyval) : validated Z :=
  match validate_int v with
  | Valid z => if (0 <=? z)%Z then Valid z else fail greater_than_equal
  | Invalid errors => Invalid errors
  end.

(** [datetime.datetime]: a text that is read neither as a date and time
    nor as a date is reported as [datetime_from_date_parsing]. *)
Definition validate_datetime (v : pyval) : validated datetime :=
  match to_datetime v with
  | Some d => Valid d
  | None =>
      match v with
      | PStr _ => fail datetime_from_date_parsing
      | _ => fail datetime_type
      end
  end.

(** A field without a default. *)
Definition required {A} (field : string) (validate : pyval -> validated A)
    (items : list (string * pyval)) : validated A :=
  match dict_get field items with
  | Some v => under (LocField field) (validate v)
  | None => under (LocField field) (fail missing)
  end.

(** A field with a default. *)
Definition defaulted {A} (field : string) (validate : pyval -> validated A)
    (default : A) (items : list (string * pyval)) : validated A :=
  match dict_get field items with
  | Some v => under (LocField field) (validate v)
  | None => Valid default
  end.

(** A model is validated from a dictionary; keys that are no field are
    ignored. *)
Definition validate_model {A} (fields : list (string * pyval) -> validated A)
    (v : pyval) : validated A :=
  match v with
  | PDict _ items => fields items
  | _ => fail model_type
  end.

(** [T | None] *)
Definition validate_optional {A} (validate : pyval -> validated A) (v : pyval)
  : validated (option A) :=
  match v with
  | PNone => Valid None
  | _ => vmap Some (validate v)
  end.

Fixpoint validate_items {A} (validate : pyval -> validated A) (i : nat)
    (xs : list pyval) : validated (list A) :=
  match xs with
  | [] => Valid []
  | x :: rest =>
      and_field (vmap cons (under (LocIndex i) (validate x)))
                (validate_items validate (S i) rest)
  end.

(** [list[T]] *)
Definition validate_list {A} (validate : pyval -> validated A) (v : pyval)
  : validated (list A) :=
  match v with
  | PList xs => validate_items validate 0 xs
  | _ => fail list_type
  end.

Definition Address_fields (items : list (string * pyval)) : validated Address :=
  and_field
    (and_field
       (vmap Build_Address (required "house_number" validate_int items))
       (required "street" validate_str items))
    (required "city" validate_str items).

Definition Contact_fields (cls : contact_class) (items : list (string * pyval))
  : validated Contact :=
  match cls with
  | ContactCls => vmap BaseContact (required "name" validate_str items)
  | FriendCls =>
      and_field (vmap Friend (required "name" validate_str items))
                (required "known_since" validate_datetime items)
  | FamilyMemberCls =>
      and_field (vmap FamilyMember (required "name" validate_str items))
                (required "relationship" validate_str items)
  end.

(** The union of the tagged [Contact] classes, dispatched by
    [pydantic.Discriminator(get_discriminator_value)]. *)
Definition validate_contact (v : pyval) : validated Contact :=
  match get_discriminator_value v with
  | PNone => fail union_tag_not_found
  | PStr tag =>
      match dict_get tag (get_annotated_subclass_types ContactCls true) with
      | Some cls => under (LocField tag) (validate_model (Contact_fields cls) v)
      | None => fail union_tag_invalid
      end
  | _ => fail union_tag_invalid
  end.

Definition Person_fields (items : list (string * pyval)) : validated Person :=
  and_field
    (and_field
       (and_field
          (and_field
             (and_field
                (vmap Build_Person (required "name" validate_str items))
                (required "age" validate_non_negative_int items))
             (defaulted "job" validate_str "Developer" items))
          (defaulted "address" (validate_optional (validate_model Address_fields)) None items))
       (defaulted "hobbies" (validate_list validate_str) [] items))
    (defaulted "contacts" (validate_list validate_contact) [] items).

Inductive outcome :=
| Validated (p : Person)
| ValidationError (errors : list ErrorDetails)
| Uncaught (e : exn).

(** [Person.model_validate]: the [mode="before"] validator runs first;
    a [ValueError] raised in it becomes a validation error, any other
    exception leaves the call. *)
Definition model_validate (data : pyval) : outcome :=
  match json_editor_parse data with
  | Raise (ValueError _) => ValidationError [{| err_type := value_error; err_loc := [] |}]
  | Raise e => Uncaught e
  | Ok d =>
      match validate_model Person_fields d with
      | Valid p => Validated p
      | Invalid errors => ValidationError errors
      end
  end.

End Schema.

Arguments Valid {A} a.
Arguments Invalid {A} errors.
Arguments BaseContact {datetime} name.
Arguments Friend {datetime} name known_since.
Arguments FamilyMember {datetime} name relationship.
Arguments Validated {datetime} p.
Arguments ValidationError {datetime} errors.
Arguments Uncaught {datetime} e.

(** The value stored for a key by the loop of [indexed_dicts_to_lists]
    (the body of the [for k, v in d.items()] loop, lines 22 to 33). *)
Definition normalized_item (v : pyval) : pyval :=
  match v with
  | PDict c sub =>
      if all_keys_digit sub
      then PList (map (fun skv => indexed_dicts_to_lists (snd skv)) sub)
      else indexed_dicts_to_lists v
  | PList xs => PList (map indexed_dicts_to_lists xs)
  | _ => v
  end.

(** The loop itself, started from [result]. *)
Definition normalized_items (items result : list (string * pyval)) : list (string * pyval) :=
  fold_left (fun result kv => dict_set (fst kv) (normalized_item (snd kv)) result)
            items result.

(** ** Paths, lookups and equality of values *)

(** The segments a key addresses: those between the brackets of a
    structured key, the key itself otherwise. *)
Definition path_of (k : string) : list string :=
  if is_structured k then segments k else [k].

Fixpoint is_prefix (p q : list string) : bool :=
  match p, q with
  | [], _ => true
  | a :: p', b :: q' => String.eqb a b && is_prefix p' q'
  | _ :: _, [] => false
  end.

(** Neither path leads through the other (nor are they the same). *)
Definition independent (p q : list string) : bool :=
  negb (is_prefix p q) && negb (is_prefix q p).

Fixpoint prefix_free (paths : list (list string)) : bool :=
  match paths with
  | [] => true
  | p :: rest => forallb (independent p) rest && prefix_free rest
  end.

(** No segment is a string of digits. *)
Definition field_names_only (paths : list (list string)) : bool :=
  forallb (forallb (fun seg => negb (isdigit seg))) paths.

Definition paths_of (pairs : list (string * string)) : list (list string) :=
  map (fun kv => path_of (fst kv)) pairs.

(** Python's [==] on values: lists are compared element by element,
    dictionaries by their keys and the values under them, whatever the
    order of the entries and the dictionary class. *)
Fixpoint py_eq (a b : pyval) {struct a} : bool :=
  match a, b with
  | PNone, PNone => true
  | PInt x, PInt y => Z.eqb x y
  | PStr s, PStr t => String.eqb s t
  | PList xs, PList ys =>
      (fix all2 (xs ys : list pyval) {struct xs} : bool :=
         match xs, ys with
         | [], [] => true
         | x :: xs', y :: ys' => py_eq x y && all2 xs' ys'
         | _, _ => false
         end) xs ys
  | PDict _ xs, PDict _ ys =>
      Nat.eqb (length xs) (length ys) &&
      forallb (fun kv =>
                 match dict_get (fst kv) ys with
                 | Some w => py_eq (snd kv) w
                 | None => false
                 end) xs
  | _, _ => false
  end.

(** What is found at the end of a path of keys. *)
Inductive node := NStr (s : string) | NDict | NOther.

Definition node_of (v : pyval) : node :=
  match v with
  | PStr s => NStr s
  | PDict _ _ => NDict
  | _ => NOther
  end.

Fixpoint node_at (t : pyval) (r : list string) : option node :=
  match r with
  | [] => Some (node_of t)
  | k :: r' =>
      match t with
      | PDict _ items =>
          match dict_get k items with
          | Some v => node_at v r'
          | None => None
          end
      | _ => None
      end
  end.

Fixpoint distinct (ks : list string) : bool :=
  match ks with
  | [] => true
  | k :: rest => negb (existsb (String.eqb k) rest) && distinct rest
  end.

Definition same_class (c c' : dict_class) : bool :=
  match c, c' with
  | Plain, Plain => true
  | NestedDict, NestedDict => true
  | _, _ => false
  end.

(** The trees built from keys without index segments: strings, and
    dictionaries of class [c] with distinct keys, none of them a string
    of digits; only the root ([top = true]) may be empty. *)
Fixpoint shaped (top : bool) (c : dict_class) (t : pyval) : bool :=
  match t with
  | PStr _ => true
  | PDict c' items =>
      same_class c c' && (top || negb (is_empty items)) && distinct (keys items) &&
      forallb (fun kv => negb (isdigit (fst kv)) && shaped false c (snd kv)) items
  | _ => false
  end.

(** The pairs of a form as paths and values. *)
Definition path_values (pairs : list (string * string)) : list (list string * string) :=
  map (fun kv => (path_of (fst kv), snd kv)) pairs.

(** [t] holds exactly the strings of [P], each at its path, with
    dictionaries above them and nothing else. *)
Definition represents (t : pyval) (P : list (list string * string)) : Prop :=
  shaped true NestedDict t = true /\
  (forall r s, node_at t r = Some (NStr s) <-> In (r, s) P) /\
  (forall r, node_at t r = Some NDict <->
             r = [] \/ exists p s, In (p, s) P /\ is_prefix r p = true /\ is_prefix p r = false).

(** Two normalized trees with the same node at every path. *)
Definition alike (v w : pyval) : Prop :=
  shaped true Plain v = true /\ shaped true Plain w = true /\
  forall r, node_at v r = node_at w r.

(** ** Serialization *)

(** [str(n)] and [str(z)]: the decimal digits, after a minus sign for a
    negative integer. *)
Definition str_of_nat (n : nat) : string := NilZero.string_of_uint (Nat.to_uint n).
Definition str_of_Z (z : Z) : string := NilZero.string_of_int (Z.to_int z).

Section Dump.

(** [datetime.isoformat], the text pydantic writes for a [datetime]. *)
Variable datetime : Type.
Variable isoformat : datetime -> string.

(** The document of [model_dump(mode="json")], as Python values: the
    declared fields in order, then the computed field [_type] of a
    contact; a [datetime] as its text, an integer as an integer. *)
Definition Address_dump (a : Address) : pyval :=
  PDict Plain [("house_number", PInt (house_number a));
               ("street", PStr (street a));
               ("city", PStr (city a))].

Definition Contact_dump (c : Contact datetime) : pyval :=
  match c with
  | BaseContact n =>
      PDict Plain [("name", PStr n); ("_type", PStr (_type datetime c))]
  | Friend n d =>
      PDict Plain [("name", PStr n); ("known_since", PStr (isoformat d));
                   ("_type", PStr (_type datetime c))]
  | FamilyMember n r =>
      PDict Plain [("name", PStr n); ("relationship", PStr r);
                   ("_type", PStr (_type datetime c))]
  end.

Definition model_dump (p : Person datetime) : pyval :=
  PDict Plain [("name", PStr (name datetime p));
               ("age", PInt (age datetime p));
               ("job", PStr (job datetime p));
               ("address", match address datetime p with
                           | Some a => Address_dump a
                           | None => PNone
                           end);
               ("hobbies", PList (map PStr (hobbies datetime p)));
               ("contacts", PList (map Contact_dump (contacts datetime p)))].

End Dump.

(** A path one level further down. *)
Definition below (k : string) (ps : list string * string) : list string * string :=
  (k :: fst ps, snd ps).

(** Modelled from the spec: the pairs of the elements of a sequence, the
    position of each element being the next segment of its paths;
    [flatten] is the serializer of one element.  The pairs are listed by
    ascending position; the spec fixes no order for the pairs of a flat
    form, this is one of the orders a form may have. *)
Definition flatten_elements (flatten : pyval -> list (list string * string))
  : nat -> list pyval -> list (list string * string) :=
  fix elements (i : nat) (xs : list pyval) : list (list string * string) :=
    match xs with
    | [] => []
    | x :: rest => map (below (str_of_nat i)) (flatten x) ++ elements (S i) rest
    end.

(** Modelled from the spec: the serializer of a nested document to the
    flat bracket form, which the repository leaves to the form in the
    browser.  Every scalar of the document gives one pair: its path of
    field names and indices, and its text; [None] and empty containers
    give none. *)
Fixpoint flatten (v : pyval) : list (list string * string) :=
  match v with
  | PNone => []
  | PInt z => [([], str_of_Z z)]
  | PStr s => [([], s)]
  | PList xs => flatten_elements flatten 0 xs
  | PDict _ items =>
      flat_map (fun kv => map (below (fst kv)) (flatten (snd kv))) items
  end.

(** The entries of a dictionary. *)
Definition dict_items (v : pyval) : list (string * pyval) :=
  match v with
  | PDict _ items => items
  | _ => []
  end.

(** Modelled from the spec: the key of a path in the wire format
    [root[seg1][seg2]...[segN]]. *)
Definition bracket_key (path : list string) : string :=
  "root[" ++ String.concat "][" path ++ "]".


(** The walks of a list of paths, one after the other. *)
Fixpoint walk_all (t : pyval) (pvs : list (list string * string)) : res pyval :=
  match pvs with
  | [] => Ok t
  | (path, s) :: rest =>
      match unpack_last path with
      | Some (sub_ks, leaf) => t' <- walk t sub_ks leaf (PStr s) ;; walk_all t' rest
      | None => Raise (ValueError "not enough values to unpack")
      end
  end.

(** No closing bracket in a segment. *)
Fixpoint no_close (s : string) : bool :=
  match s with
  | EmptyString => true
  | String c s' => negb (Ascii.eqb c "]") && no_close s'
  end.

(** The elements of a list with their positions, counted from [i]. *)
Fixpoint enumerate_from {A} (i : nat) (xs : list A) : list (nat * A) :=
  match xs with
  | [] => []
  | x :: rest => (i, x) :: enumerate_from (S i) rest
  end.



(** The errors a validation reports, none when it succeeds. *)
Definition errors_of {A} (r : validated A) : list ErrorDetails :=
  match r with
  | Valid _ => []
  | Invalid errors => errors
  end.

Definition error_at (t : error_type) (loc : list loc_item) : ErrorDetails :=
  {| err_type := t; err_loc := loc |}.

(** What a path reaches in a tree.  A segment is the key of a dictionary
    and, read as a number, the index of a list, as the walk of a key
    reads it. *)
Fixpoint lookup (t : pyval) (path : list string) : option pyval :=
  match path with
  | [] => Some t
  | seg :: rest =>
      match t with
      | PDict _ items =>
          match dict_get seg items with
          | Some sub => lookup sub rest
          | None => None
          end
      | PList xs =>
          if isdigit seg then
            match nth_error xs (int seg) with
            | Some sub => lookup sub rest
            | None => None
            end
          else None
      | _ => None
      end
  end.

(** No list anywhere in a value. *)
Fixpoint no_lists (v : pyval) : bool :=
  match v with
  | PList _ => false
  | PDict _ items => forallb (fun kv => no_lists (snd kv)) items
  | _ => true
  end.

(** Strings, and [NestedDict]s of such values: the trees the decoder
    builds from the keys of a form. *)
Fixpoint nested_dicts_only (v : pyval) : bool :=
  match v with
  | PStr _ => true
  | PDict NestedDict items => forallb (fun kv => nested_dicts_only (snd kv)) items
  | _ => false
  end.

(** No [NestedDict] anywhere in a value. *)
Fixpoint plain (v : pyval) : bool :=
  match v with
  | PList xs => forallb plain xs
  | PDict Plain items => forallb (fun kv => plain (snd kv)) items
  | PDict NestedDict _ => false
  | _ => true
  end.

(** The first segment of a path given as [*sub_ks, leaf]. *)
Definition first_segment (sub_ks : list string) (leaf : string) : string :=
  hd leaf sub_ks.

(** The two failures of Python on a string where a dictionary is needed. *)
Definition str_error (e : exn) : Prop :=
  e = TypeError "'str' object does not support item assignment" \/
  e = TypeError "string indices must be integers, not 'str'".

(** ** The earlier versions of the decoder *)

(** [1_form_submission/model.py]: the wrapper [root[...]] is taken off a
    key, nothing is nested.  The loop cannot raise. *)
Module FormSubmission.

Definition json_editor_parse (data : pyval) : pyval :=
  match data with
  | PDict _ items =>
      PDict Plain
        (fold_left
           (fun out kv =>
              dict_set (if is_structured (fst kv)
                        then removesuffix "]" (removeprefix "root[" (fst kv))
                        else fst kv)
                       (snd kv) out)
           items [])
  | _ => data
  end.

End FormSubmission.

(** [2_nested_model/model.py]: the segments of a key are walked through
    [NestedDict]s; there is no treatment of lists and no normalizer. *)
Module NestedModel.

Definition list_indices_error : exn :=
  TypeError "list indices must be integers or slices, not str".

(** [parent = parent[sub_k]] for every segment but the last, then
    [parent[leaf] = v]. *)
Fixpoint walk (parent : pyval) (sub_ks : list string) (leaf : string) (v : pyval)
  : res pyval :=
  match sub_ks with
  | [] =>
      match parent with
      | PDict c items => Ok (PDict c (dict_set leaf v items))
      | PList _ => Raise list_indices_error
      | _ => Raise (no_item_assignment parent)
      end
  | sub_k :: rest =>
      match parent with
      | PDict c items =>
          match dict_get sub_k items with
          | Some sub =>
              child <- walk sub rest leaf v ;;
              Ok (PDict c (dict_set sub_k child items))
          | None =>
              match c with
              | NestedDict =>
                  child <- walk (PDict NestedDict []) rest leaf v ;;
                  Ok (PDict c (dict_set sub_k child items))
              | Plain => Raise (KeyError sub_k)
              end
          end
      | PList _ => Raise list_indices_error
      | _ => Raise (not_subscriptable parent)
      end
  end.

Definition parse_item (out : pyval) (kv : string * pyval) : res pyval :=
  let (k, v) := kv in
  if is_structured k then
    match unpack_last (segments k) with
    | Some (sub_ks, leaf) => walk out sub_ks leaf v
    | None => Raise (ValueError "not enough values to unpack")
    end
  else walk out [] k v.

Fixpoint parse_items (out : pyval) (items : list (string * pyval)) : res pyval :=
  match items with
  | [] => Ok out
  | kv :: rest => out' <- parse_item out kv ;; parse_items out' rest
  end.

Definition json_editor_parse (data : pyval) : res pyval :=
  match data with
  | PDict _ items => parse_items (PDict NestedDict []) items
  | _ => Ok data
  end.

End NestedModel.

(** ** The handlers of [2_nested_model/app.py]

    The global list [models] is passed in and out of the handlers that
    change it.  The pages of [html.py] and the validated model are
    parameters: the handlers only pass them on. *)
Module App.

(** [starlette.responses.HTMLResponse] with its status and its text. *)
Record HTMLResponse := {
  status_code : Z;
  content : string
}.

Definition not_found : HTMLResponse :=
  {| status_code := 404; content := "Not Found" |}.

(** The place that the index [i] names in a list of length [len]: a
    negative index counts from the end; [None] stands for [IndexError]. *)
Definition position (len : nat) (i : Z) : option nat :=
  if (0 <=? i)%Z
  then if (i <? Z.of_nat len)%Z then Some (Z.to_nat i) else None
  else if (- Z.of_nat len <=? i)%Z then Some (Z.to_nat (Z.of_nat len + i)) else None.

(** [xs[i]] *)
Definition getitem {A} (xs : list A) (i : Z) : option A :=
  match position (length xs) i with
  | Some n => nth_error xs n
  | None => None
  end.

Fixpoint replace {A} (n : nat) (x : A) (xs : list A) : list A :=
  match xs, n with
  | [], _ => []
  | _ :: rest, O => x :: rest
  | y :: rest, S m => y :: replace m x rest
  end.

(** [xs[i] = x] *)
Definition setitem {A} (xs : list A) (i : Z) (x : A) : option (list A) :=
  match position (length xs) i with
  | Some n => Some (replace n x xs)
  | None => None
  end.

Section Handlers.

Variable Person : Type.
Variable html_home : string -> string.
Variable html_person : Person -> nat -> string.
Variable html_edit : Person -> Z -> string.

(** ["".join(html.html_person(m, i) for i, m in enumerate(models))] *)
Definition snippets (i : nat) (models : list Person) : string :=
  String.concat "" (map (fun im => html_person (snd im) (fst im)) (enumerate_from i models)).

(** [GET /] *)
Definition people (models : list Person) : HTMLResponse :=
  {| status_code := 200; content := html_home (snippets 0 models) |}.

(** [POST /]: the response and the list afterwards. *)
Definition create_person (models : list Person) (model : Person)
  : HTMLResponse * list Person :=
  (people (models ++ [model]), models ++ [model]).

(** [GET /{index}] *)
Definition person (models : list Person) (index : Z) : HTMLResponse :=
  match getitem models index with
  | Some model => {| status_code := 200; content := html_edit model index |}
  | None => not_found
  end.

(** [POST /{index}]: the response and the list afterwards. *)
Definition update_person (models : list Person) (index : Z) (model : Person)
  : HTMLResponse * list Person :=
  match setitem models index model with
  | Some models' => ({| status_code := 200; content := html_edit model index |}, models')
  | None => (not_found, models)
  end.

End Handlers.

End App.

(** ** Texts and integers on which the model and Python agree *)

(** A Python text is a sequence of code points, a string of the model a
    sequence of 8-bit characters.  The two agree on ASCII texts, and on
    these [str.isdigit()] is [isdigit].  A digit outside ASCII, such as
    U+0663, is a digit for Python and none for [isdigit]: a statement
    that takes a text to be no number therefore takes it to be ASCII. *)
Fixpoint is_ascii (s : string) : bool :=
  match s with
  | EmptyString => true
  | String c s' => Nat.ltb (nat_of_ascii c) 128 && is_ascii s'
  end.

(** Every key of every dictionary in a value is an ASCII text. *)
Fixpoint ascii_keys (v : pyval) : bool :=
  match v with
  | PList xs => forallb ascii_keys xs
  | PDict _ items => forallb (fun kv => is_ascii (fst kv) && ascii_keys (snd kv)) items
  | _ => true
  end.


(** * Properties *)

(** ** Basic facts about the Python model *)

Lemma bind_ok {A B} (m : res A) (k : A -> res B) (b : B) :
  bind m k = Ok b -> exists a, m = Ok a /\ k a = Ok b.
Proof.
  destruct m as [a | e]; simpl; intros H.
  - exists a. split; [reflexivity | exact H].
  - discriminate H.
Qed.

Lemma bind_raise {A B} (m : res A) (k : A -> res B) (e : exn) :
  m = Raise e -> bind m k = Raise e.
Proof. intros ->. reflexivity. Qed.

Lemma split_go_not_nil sep skip cur s : split_go sep skip cur s <> [].
Proof.
  revert skip cur. induction s as [| c s IH]; intros skip cur; cbn [split_go].
  - discriminate.
  - destruct skip as [| n].
    + destruct (String.prefix sep (String c s)); [discriminate | apply IH].
    + apply IH.
Qed.

Lemma unpack_last_some {A} (xs : list A) :
  xs <> [] -> exists init l, unpack_last xs = Some (init, l).
Proof.
  induction xs as [| x rest IH]; intros Hne; [contradiction |].
  destruct rest as [| y rest'].
  - exists [], x. reflexivity.
  - destruct IH as (init & l & Hl); [discriminate |].
    exists (x :: init), l.
    change (unpack_last (x :: y :: rest'))
      with (match unpack_last (y :: rest') with
            | Some (init, l) => Some (x :: init, l)
            | None => None
            end).
    rewrite Hl. reflexivity.
Qed.

(** The key splitter always yields a last segment. *)
Lemma segments_unpack k : exists sub_ks leaf, unpack_last (segments k) = Some (sub_ks, leaf).
Proof. apply unpack_last_some. apply split_go_not_nil. Qed.



Lemma errors_of_and_field {A B} (rf : validated (A -> B)) (ra : validated A) :
  errors_of (and_field rf ra) = errors_of rf ++ errors_of ra.
Proof.
  destruct rf, ra; simpl; try reflexivity. symmetry. apply app_nil_r.
Qed.

Lemma errors_of_vmap {A B} (f : A -> B) (r : validated A) :
  errors_of (vmap f r) = errors_of r.
Proof. destruct r; reflexivity. Qed.

(** ** The [_type] property *)

(** C9. Assigning any string to [_type] of any [Contact], [Friend] or
    [FamilyMember] instance raises [ValueError], also when the string is
    the instance's own class name; reading [_type] gives the class name. *)
Theorem type_is_read_only :
  forall (datetime : Type) (self : Contact datetime) (s : string),
    (exists msg, _type_setter datetime self s = Raise (ValueError msg)) /\
    _type datetime self = class_name (class_of datetime self).
Proof.
  intros datetime self s. split; [| reflexivity].
  unfold _type_setter.
  destruct (negb (s =? class_name (class_of datetime self))); eexists; reflexivity.
Qed.

(** ** Decoding *)

(** C3. The normalizer lists the children of a numeric-keyed dictionary in
    the order of [values()], the order of insertion: with [root[hobbies][1]]
    submitted before [root[hobbies][0]] the decoded hobbies are
    [["Reading", "Walking"]].  The branch for a list that is already
    there places by index and gives [["Walking", "Reading"]]. *)
Theorem hobbies_out_of_order :
  json_editor_parse
    (form [("root[hobbies][1]", "Reading"); ("root[hobbies][0]", "Walking")])
  = Ok (PDict Plain [("hobbies", PList [PStr "Reading"; PStr "Walking"])])
  /\
  json_editor_parse
    (PDict Plain [("hobbies", PList []);
                  ("root[hobbies][1]", PStr "Reading");
                  ("root[hobbies][0]", PStr "Walking")])
  = Ok (PDict Plain [("hobbies", PList [PStr "Walking"; PStr "Reading"])]).
Proof. split; reflexivity. Qed.

(** C4. With [root[hobbies][2]] as the only hobbies key the decoded
    sequence has the single element ["Jogging"]: nothing is padded.  The
    branch for a list that is already there pads with [type(v)()]. *)
Theorem hobbies_gap :
  json_editor_parse (form [("root[hobbies][2]", "Jogging")])
  = Ok (PDict Plain [("hobbies", PList [PStr "Jogging"])])
  /\
  json_editor_parse
    (PDict Plain [("hobbies", PList []); ("root[hobbies][2]", PStr "Jogging")])
  = Ok (PDict Plain [("hobbies", PList [PStr ""; PStr ""; PStr "Jogging"])]).
Proof. split; reflexivity. Qed.

(** C7. [root[address]] with a scalar followed by [root[address][street]]
    fails: the walk reaches the string stored under [address] and the item
    assignment on it raises, which ends [model_validate] too. *)
Theorem scalar_then_object_fails :
  forall (datetime : Type) (to_datetime : pyval -> option datetime) (foo main : string),
    json_editor_parse
      (form [("root[address]", foo); ("root[address][street]", main)])
    = Raise (TypeError "'str' object does not support item assignment")
    /\
    model_validate datetime to_datetime
      (form [("root[address]", foo); ("root[address][street]", main)])
    = Uncaught (TypeError "'str' object does not support item assignment").
Proof. intros. split; reflexivity. Qed.

(** A key that is not of the form [root[...]] is stored whole. *)
Lemma parse_item_flat c items k v :
  is_structured k = false ->
  parse_item (PDict c items) (k, v) = Ok (PDict c (dict_set k v items)).
Proof. intros Hk. unfold parse_item. rewrite Hk. reflexivity. Qed.





(** ** Validation *)

Lemma decode_family_member (n a t : string) :
  json_editor_parse
    (form [("name", n); ("age", a);
           ("root[contacts][0][_type]", t);
           ("root[contacts][0][name]", "Bob");
           ("root[contacts][0][relationship]", "Father")])
  = Ok (PDict Plain
          [("name", PStr n); ("age", PStr a);
           ("contacts",
            PList [PDict Plain [("_type", PStr t); ("name", PStr "Bob");
                                ("relationship", PStr "Father")]])]).
Proof. reflexivity. Qed.

Lemma validate_age (a : string) (z : Z) :
  int_from_str a = Some z -> (0 <= z)%Z ->
  validate_non_negative_int (PStr a) = Valid z.
Proof.
  intros Ha Hz. unfold validate_non_negative_int, validate_int.
  rewrite Ha. apply Z.leb_le in Hz. rewrite Hz. reflexivity.
Qed.

(** C5. With [_type] [FamilyMember], [name] [Bob] and [relationship]
    [Father] under [root[contacts][0]], decoding and validating gives the
    [FamilyMember] variant with these two fields at [contacts[0]]; with
    [_type] [Unknown] the report is one [union_tag_invalid] error located
    at [contacts], index 0. *)
Theorem contact_union_dispatch :
  forall (datetime : Type) (to_datetime : pyval -> option datetime)
         (n a : string) (z : Z),
    int_from_str a = Some z -> (0 <= z)%Z ->
    model_validate datetime to_datetime
      (form [("name", n); ("age", a);
             ("root[contacts][0][_type]", "FamilyMember");
             ("root[contacts][0][name]", "Bob");
             ("root[contacts][0][relationship]", "Father")])
    = Validated {| name := n; age := z; job := "Developer"; address := None;
                   hobbies := []; contacts := [FamilyMember "Bob" "Father"] |}
    /\
    model_validate datetime to_datetime
      (form [("name", n); ("age", a);
             ("root[contacts][0][_type]", "Unknown");
             ("root[contacts][0][name]", "Bob");
             ("root[contacts][0][relationship]", "Father")])
    = ValidationError [error_at union_tag_invalid [LocField "contacts"; LocIndex 0]].
Proof.
  intros datetime to_datetime n a z Ha Hz.
  unfold model_validate. rewrite !decode_family_member.
  unfold validate_model, Person_fields, required, defaulted.
  cbn [dict_get String.eqb Ascii.eqb Bool.eqb].
  rewrite (validate_age a z Ha Hz).
  split; reflexivity.
Qed.

Lemma contact_union_dispatch_witness :
  model_validate unit (fun _ => None)
    (form [("name", "Ann"); ("age", "30");
           ("root[contacts][0][_type]", "FamilyMember");
           ("root[contacts][0][name]", "Bob");
           ("root[contacts][0][relationship]", "Father")])
  = Validated {| name := "Ann"; age := 30; job := "Developer"; address := None;
                 hobbies := []; contacts := [FamilyMember "Bob" "Father"] |}.
Proof.
  apply (contact_union_dispatch unit (fun _ => None) "Ann" "30" 30%Z).
  - reflexivity.
  - lia.
Defined.

(** C8, on the claim as written: the report for the empty form has no
    [missing] error for [job]. *)
Lemma empty_form_job_is_not_missing :
  exists errors,
    model_validate unit (fun _ => None) (form []) = ValidationError errors /\
    ~ In (error_at missing [LocField "job"]) errors.
Proof.
  eexists. split; [reflexivity |].
  simpl. intros [H | [H | []]]; discriminate H.
Qed.

(** C8, as the code has it.  [name] and [age] are required, [job] is
    declared with the default ["Developer"]: the empty form yields one
    report holding the [missing] errors of [name] and of [age], and a form
    with only these two fields validates with [job = "Developer"].  The
    report of a [Person] is the concatenation of the reports of its six
    fields, so no field's errors hide another's. *)
Theorem empty_form_missing_fields :
  forall (datetime : Type) (to_datetime : pyval -> option datetime),
    model_validate datetime to_datetime (form [])
    = ValidationError [error_at missing [LocField "name"];
                       error_at missing [LocField "age"]]
    /\
    (forall n : string,
        model_validate datetime to_datetime (form [("name", n); ("age", "30")])
        = Validated {| name := n; age := 30; job := "Developer"; address := None;
                       hobbies := []; contacts := [] |})
    /\
    (forall items : list (string * pyval),
        errors_of (Person_fields datetime to_datetime items)
        = errors_of (required "name" validate_str items)
          ++ errors_of (required "age" validate_non_negative_int items)
          ++ errors_of (defaulted "job" validate_str "Developer" items)
          ++ errors_of (defaulted "address"
                          (validate_optional (validate_model Address_fields)) None items)
          ++ errors_of (defaulted "hobbies" (validate_list validate_str) [] items)
          ++ errors_of (defaulted "contacts"
                          (validate_list (validate_contact datetime to_datetime)) [] items)).
Proof.
  intros datetime to_datetime. split; [reflexivity | split; [reflexivity |]].
  intros items. unfold Person_fields.
  rewrite !errors_of_and_field, errors_of_vmap, <- !app_assoc. reflexivity.
Qed.

(** ** The array normalizer *)

(** Induction on values, with the hypothesis for every element of a list
    and every value of a dictionary. *)
Lemma pyval_ind (P : pyval -> Prop)
    (HNone : P PNone)
    (HInt : forall z, P (PInt z))
    (HStr : forall s, P (PStr s))
    (HList : forall xs, Forall P xs -> P (PList xs))
    (HDict : forall c items, Forall (fun kv => P (snd kv)) items -> P (PDict c items)) :
  forall v, P v.
Proof.
  fix IH 1. intros [| z | s | xs | c items].
  - exact HNone.
  - apply HInt.
  - apply HStr.
  - apply HList. induction xs as [| x xs IHxs]; constructor; [apply IH | exact IHxs].
  - apply HDict. induction items as [| [k v] items IHitems]; constructor;
      [apply IH | exact IHitems].
Qed.

Lemma indexed_dicts_to_lists_dict c items :
  indexed_dicts_to_lists (PDict c items)
  = if negb (is_empty items) && all_keys_digit items
    then PList (map (fun kv => indexed_dicts_to_lists (snd kv)) items)
    else PDict Plain (normalized_items items []).
Proof. reflexivity. Qed.

Lemma dict_set_new {A} (k : string) (v : A) items :
  ~ In k (keys items) -> dict_set k v items = items ++ [(k, v)].
Proof.
  induction items as [| [k' v'] rest IH]; intros Hk; simpl.
  - reflexivity.
  - destruct (String.eqb_spec k k') as [-> | Hne].
    + exfalso. apply Hk. left. reflexivity.
    + rewrite IH; [reflexivity |]. intros Hin. apply Hk. right. exact Hin.
Qed.

Lemma dict_set_keys_old {A} (k : string) (v : A) items :
  In k (keys items) -> keys (dict_set k v items) = keys items.
Proof.
  induction items as [| [k' v'] rest IH]; intros Hk; simpl.
  - destruct Hk.
  - destruct (String.eqb_spec k k') as [-> | Hne]; simpl.
    + reflexivity.
    + rewrite IH; [reflexivity |]. destruct Hk as [Hk | Hk]; [| exact Hk].
      simpl in Hk. congruence.
Qed.

Lemma dict_set_keys_nodup {A} (k : string) (v : A) items :
  NoDup (keys items) -> NoDup (keys (dict_set k v items)).
Proof.
  intros Hnd. destruct (in_dec string_dec k (keys items)) as [Hin | Hnin].
  - rewrite dict_set_keys_old; assumption.
  - rewrite dict_set_new by assumption. unfold keys. rewrite map_app. simpl.
    apply NoDup_app.
    + exact Hnd.
    + constructor; [intros [] | constructor].
    + intros x Hx [Hk | []]. subst x. apply Hnin. exact Hx.
Qed.

Lemma dict_set_forallb_keys {A} (p : string -> bool) (k : string) (v : A) items :
  forallb p (keys (dict_set k v items)) = forallb p (keys items) && p k.
Proof.
  induction items as [| [k' v'] rest IH]; simpl.
  - destruct (p k); reflexivity.
  - destruct (String.eqb_spec k k') as [-> | Hne]; simpl.
    + destruct (p k'), (forallb p (keys rest)); reflexivity.
    + rewrite IH. destruct (p k'), (forallb p (keys rest)), (p k); reflexivity.
Qed.

Lemma dict_set_not_empty {A} (k : string) (v : A) items :
  is_empty (dict_set k v items) = false.
Proof.
  destruct items as [| [k' v'] rest]; simpl; [reflexivity |].
  destruct (String.eqb k k'); reflexivity.
Qed.

Lemma dict_set_values {A} (Q : A -> Prop) (k : string) (v : A) items :
  Q v -> Forall Q (values items) -> Forall Q (values (dict_set k v items)).
Proof.
  intros Hv. induction items as [| [k' v'] rest IH]; simpl; intros Hall.
  - constructor; [exact Hv | constructor].
  - inversion Hall as [| ? ? Hv' Hrest]; subst.
    destruct (String.eqb k k'); simpl; constructor; auto.
Qed.

Section Loop.

(** The loop of the normalizer for an arbitrary treatment [g] of the
    values. *)
Variable g : pyval -> pyval.

Let loop (items result : list (string * pyval)) :=
  fold_left (fun result kv => dict_set (fst kv) (g (snd kv)) result) items result.

Lemma loop_keys_nodup items result :
  NoDup (keys result) -> NoDup (keys (loop items result)).
Proof.
  revert result. induction items as [| kv items IH]; intros result Hnd; simpl.
  - exact Hnd.
  - apply IH. apply dict_set_keys_nodup. exact Hnd.
Qed.

Lemma loop_forallb_keys (p : string -> bool) items result :
  forallb p (keys (loop items result)) = forallb p (keys result) && forallb p (keys items).
Proof.
  revert result. induction items as [| kv items IH]; intros result; simpl.
  - rewrite andb_true_r. reflexivity.
  - unfold loop in IH. rewrite IH, dict_set_forallb_keys, andb_assoc. reflexivity.
Qed.

Lemma loop_is_empty items result :
  is_empty (loop items result) = is_empty result && is_empty items.
Proof.
  destruct items as [| kv items]; simpl.
  - rewrite andb_true_r. reflexivity.
  - rewrite andb_false_r.
    assert (H : forall l r, is_empty r = false -> is_empty (loop l r) = false).
    { induction l as [| kv' l IHl]; intros r Hr; simpl; [exact Hr |].
      apply IHl. apply dict_set_not_empty. }
    apply H. apply dict_set_not_empty.
Qed.

Lemma loop_values (Q : pyval -> Prop) items result :
  Forall (fun kv => Q (g (snd kv))) items ->
  Forall Q (values result) ->
  Forall Q (values (loop items result)).
Proof.
  revert result. induction items as [| kv items IH]; intros result Hitems Hres; simpl.
  - exact Hres.
  - inversion Hitems as [| ? ? Hkv Hrest]; subst.
    apply IH; [exact Hrest |]. apply dict_set_values; assumption.
Qed.

(** Over distinct fresh keys the loop appends one entry per item. *)
Lemma loop_fresh items result :
  NoDup (keys items) ->
  (forall k, In k (keys items) -> ~ In k (keys result)) ->
  loop items result = result ++ map (fun kv => (fst kv, g (snd kv))) items.
Proof.
  revert result. induction items as [| [k v] items IH]; intros result Hnd Hfresh; simpl.
  - symmetry. apply app_nil_r.
  - inversion Hnd as [| ? ? Hk Hnd']; subst.
    unfold loop in IH. rewrite IH.
    + rewrite dict_set_new by (apply Hfresh; left; reflexivity).
      rewrite <- app_assoc. reflexivity.
    + exact Hnd'.
    + intros k' Hk'. rewrite dict_set_new by (apply Hfresh; left; reflexivity).
      unfold keys. rewrite map_app, in_app_iff. simpl.
      intros [Hin | [Heq | []]].
      * apply (Hfresh k'); [right; exact Hk' | exact Hin].
      * subst k'. apply Hk. exact Hk'.
Qed.

End Loop.

(** A second run of the loop over its own result changes nothing when the
    stored values are fixed by [normalized_item]. *)
Lemma normalized_items_again items :
  Forall (fun kv => normalized_item (normalized_item (snd kv)) = normalized_item (snd kv)) items ->
  normalized_items (normalized_items items []) [] = normalized_items items [].
Proof.
  intros Hfix. unfold normalized_items at 1.
  rewrite loop_fresh.
  - simpl.
    assert (Hvals : Forall (fun v => normalized_item v = v)
                           (values (normalized_items items []))).
    { apply loop_values; [exact Hfix | constructor]. }
    induction (normalized_items items []) as [| [k v] r IHr]; simpl; [reflexivity |].
    inversion Hvals as [| ? ? Hv Hr]; subst.
    rewrite Hv, IHr by exact Hr. reflexivity.
  - apply loop_keys_nodup. constructor.
  - intros k _ [].
Qed.

Lemma normalized_items_guard items :
  negb (is_empty (normalized_items items [])) && all_keys_digit (normalized_items items [])
  = negb (is_empty items) && all_keys_digit items.
Proof.
  unfold normalized_items, all_keys_digit.
  rewrite loop_is_empty, loop_forallb_keys. reflexivity.
Qed.

Lemma normalized_items_all_keys_digit items :
  all_keys_digit (normalized_items items []) = all_keys_digit items.
Proof.
  unfold normalized_items, all_keys_digit. rewrite loop_forallb_keys. reflexivity.
Qed.

Lemma map_fixed {A} (f : A -> A) xs :
  Forall (fun x => f (f x) = f x) xs -> map f (map f xs) = map f xs.
Proof.
  induction 1 as [| x xs Hx _ IH]; simpl; [reflexivity |].
  rewrite Hx, IH. reflexivity.
Qed.

(** Both the normalizer and the treatment of a stored value are
    idempotent; the two facts are proved together. *)
Lemma normalizer_idempotent_both (d : pyval) :
  indexed_dicts_to_lists (indexed_dicts_to_lists d) = indexed_dicts_to_lists d /\
  normalized_item (normalized_item d) = normalized_item d.
Proof.
  induction d as [| z | s | xs IH | c items IH] using pyval_ind;
    try (split; reflexivity).
  - split; [reflexivity |].
    cbn [normalized_item]. f_equal. apply map_fixed.
    eapply Forall_impl; [| exact IH]. intros x [Hx _]. exact Hx.
  - assert (Hlist : map indexed_dicts_to_lists
                      (map (fun kv => indexed_dicts_to_lists (snd kv)) items)
                    = map (fun kv => indexed_dicts_to_lists (snd kv)) items).
    { clear -IH. induction IH as [| kv items [Hkv _] _ IHitems]; simpl; [reflexivity |].
      rewrite Hkv, IHitems. reflexivity. }
    assert (Hdict : negb (is_empty items) && all_keys_digit items = false ->
                    indexed_dicts_to_lists (PDict Plain (normalized_items items []))
                    = PDict Plain (normalized_items items [])).
    { intros Hguard. rewrite indexed_dicts_to_lists_dict, normalized_items_guard, Hguard.
      f_equal. apply normalized_items_again.
      eapply Forall_impl; [| exact IH]. intros kv [_ Hkv]. exact Hkv. }
    split.
    + rewrite indexed_dicts_to_lists_dict.
      destruct (negb (is_empty items) && all_keys_digit items) eqn:Hguard.
      * reflexivity.
      * apply Hdict. reflexivity.
    + cbn [normalized_item].
      destruct (all_keys_digit items) eqn:Hdigits.
      * cbn [normalized_item]. f_equal. exact Hlist.
      * rewrite indexed_dicts_to_lists_dict, Hdigits, andb_false_r.
        cbn [normalized_item].
        rewrite normalized_items_all_keys_digit, Hdigits.
        apply Hdict. apply andb_false_r.
Qed.

(** C10. The array normalizer is idempotent: applying
    [indexed_dicts_to_lists] to its own output gives that output again,
    for every value [d]. *)
Theorem indexed_dicts_to_lists_idempotent :
  forall d : pyval,
    indexed_dicts_to_lists (indexed_dicts_to_lists d) = indexed_dicts_to_lists d.
Proof. intros d. apply normalizer_idempotent_both. Qed.

(** ** Order of submission *)

Lemma distinct_NoDup ks : distinct ks = true <-> NoDup ks.
Proof.
  induction ks as [| k rest IH]; simpl.
  - split; [constructor | reflexivity].
  - rewrite andb_true_iff, negb_true_iff, IH. split.
    + intros [Hk Hrest]. constructor; [| exact Hrest].
      intros Hin. assert (Hex : existsb (String.eqb k) rest = true).
      { apply existsb_exists. exists k. split; [exact Hin | apply String.eqb_refl]. }
      congruence.
    + intros Hnd. inversion Hnd as [| ? ? Hk Hrest]; subst. split; [| exact Hrest].
      destruct (existsb (String.eqb k) rest) eqn:Hex; [| reflexivity].
      apply existsb_exists in Hex. destruct Hex as (x & Hx & Hkx).
      apply String.eqb_eq in Hkx. subst x. contradiction.
Qed.

Lemma dict_get_none {A} (k : string) (items : list (string * A)) :
  dict_get k items = None <-> ~ In k (keys items).
Proof.
  induction items as [| [k' v'] rest IH]; simpl.
  - split; [intros _ [] | reflexivity].
  - destruct (String.eqb_spec k k') as [-> | Hne].
    + split; [discriminate | intros H; exfalso; apply H; left; reflexivity].
    + rewrite IH. split.
      * intros H [Heq | Hin]; [congruence | contradiction].
      * intros H Hin. apply H. right. exact Hin.
Qed.

Lemma dict_get_some_in {A} (k : string) (v : A) items :
  dict_get k items = Some v -> In (k, v) items.
Proof.
  induction items as [| [k' v'] rest IH]; simpl; [discriminate |].
  destruct (String.eqb_spec k k') as [-> | Hne].
  - intros [= ->]. left. reflexivity.
  - intros H. right. apply IH. exact H.
Qed.

Lemma dict_get_in {A} (k : string) (v : A) items :
  NoDup (keys items) -> In (k, v) items -> dict_get k items = Some v.
Proof.
  induction items as [| [k' v'] rest IH]; simpl; intros Hnd Hin; [destruct Hin |].
  inversion Hnd as [| ? ? Hk' Hrest]; subst.
  destruct Hin as [[= -> ->] | Hin].
  - rewrite String.eqb_refl. reflexivity.
  - destruct (String.eqb_spec k k') as [-> | Hne].
    + exfalso. apply Hk'. apply (in_map fst) in Hin. exact Hin.
    + apply IH; assumption.
Qed.

Lemma dict_get_set {A} (k k0 : string) (v : A) items :
  dict_get k (dict_set k0 v items) = if String.eqb k k0 then Some v else dict_get k items.
Proof.
  induction items as [| [k' v'] rest IH]; simpl.
  - destruct (String.eqb k k0); reflexivity.
  - destruct (String.eqb_spec k0 k') as [-> | Hne]; simpl.
    + destruct (String.eqb k k'); reflexivity.
    + rewrite IH. destruct (String.eqb_spec k k') as [-> | Hne'].
      * destruct (String.eqb_spec k' k0) as [Heq | _]; [congruence | reflexivity].
      * reflexivity.
Qed.

Lemma dict_set_forallb {A} (q : string * A -> bool) (k : string) (v : A) items :
  q (k, v) = true -> forallb q items = true -> forallb q (dict_set k v items) = true.
Proof.
  intros Hq. induction items as [| [k' v'] rest IH]; simpl.
  - intros _. rewrite Hq. reflexivity.
  - rewrite andb_true_iff. intros [Hk' Hrest].
    destruct (String.eqb_spec k k') as [-> | Hne]; simpl.
    + rewrite Hq, Hrest. reflexivity.
    + rewrite Hk', IH by exact Hrest. reflexivity.
Qed.

Lemma dict_set_distinct {A} (k : string) (v : A) items :
  distinct (keys items) = true -> distinct (keys (dict_set k v items)) = true.
Proof. rewrite !distinct_NoDup. apply dict_set_keys_nodup. Qed.

Lemma is_prefix_refl p : is_prefix p p = true.
Proof. induction p as [| a p IH]; simpl; [reflexivity |]. rewrite String.eqb_refl. exact IH. Qed.

Lemma is_prefix_nil_r p : is_prefix p [] = true -> p = [].
Proof. destruct p; [reflexivity | discriminate]. Qed.

Lemma independent_sym p q : independent p q = independent q p.
Proof. unfold independent. apply andb_comm. Qed.

(** A dictionary of the shape, taken apart. *)
Lemma shaped_dict top c c' items :
  shaped top c (PDict c' items) = true ->
  c' = c /\ (top = true \/ items <> []) /\ distinct (keys items) = true /\
  forallb (fun kv => negb (isdigit (fst kv)) && shaped false c (snd kv)) items = true.
Proof.
  simpl. rewrite !andb_true_iff. intros [[[Hc Hne] Hd] Hall].
  repeat split; try assumption.
  - destruct c, c'; simpl in Hc; congruence.
  - apply orb_true_iff in Hne. destruct Hne as [Ht | Hne]; [left; exact Ht | right].
    destruct items; [discriminate | discriminate].
Qed.

Lemma shaped_is_str_or_dict top c t :
  shaped top c t = true -> (exists s, t = PStr s) \/ (exists items, t = PDict c items).
Proof.
  destruct t as [| z | s | xs | c' items]; try discriminate.
  - intros _. left. exists s. reflexivity.
  - intros H. apply shaped_dict in H. destruct H as (-> & _). right. exists items. reflexivity.
Qed.

Lemma shaped_weaken c t : shaped false c t = true -> shaped true c t = true.
Proof.
  destruct t as [| z | s | xs | c' items]; simpl; try (intros H; exact H).
  rewrite !andb_true_iff. intros [[[Hc Hne] Hd] Hall]. repeat split; assumption.
Qed.

Lemma shaped_child top c c' items k v :
  shaped top c (PDict c' items) = true -> dict_get k items = Some v ->
  isdigit k = false /\ shaped false c v = true.
Proof.
  intros Hs Hget. apply shaped_dict in Hs. destruct Hs as (_ & _ & _ & Hall).
  apply dict_get_some_in in Hget. rewrite forallb_forall in Hall.
  specialize (Hall _ Hget). simpl in Hall. apply andb_true_iff in Hall.
  destruct Hall as [Hk Hv]. apply negb_true_iff in Hk. split; assumption.
Qed.

(** Storing a value of the shape under a key that is no digit string
    keeps the shape, and the dictionary is then not empty. *)
Lemma shaped_set top c items k v :
  shaped top c (PDict c items) = true -> isdigit k = false -> shaped false c v = true ->
  shaped false c (PDict c (dict_set k v items)) = true.
Proof.
  intros Hs Hk Hv. apply shaped_dict in Hs. destruct Hs as (_ & _ & Hd & Hall).
  simpl. rewrite !andb_true_iff. repeat split.
  - destruct c; reflexivity.
  - rewrite dict_set_not_empty. reflexivity.
  - apply dict_set_distinct. exact Hd.
  - apply dict_set_forallb; [| exact Hall]. simpl. rewrite Hk, Hv. reflexivity.
Qed.

Lemma node_at_empty c r : node_at (PDict c []) r = match r with [] => Some NDict | _ => None end.
Proof. destruct r; reflexivity. Qed.

Lemma node_at_str s r : node_at (PStr s) r = match r with [] => Some (NStr s) | _ => None end.
Proof. destruct r; reflexivity. Qed.

Lemma app_last_not_nil {A} (init : list A) (last : A) : init ++ [last] <> [].
Proof. destruct init; discriminate. Qed.

(** One key walked into a tree of the shape.  When no string lies on the
    way and the place is free, the walk succeeds, keeps the shape, puts
    the string at the end of the path, has dictionaries at the prefixes
    of the path and leaves every other place as it was. *)
Lemma walk_shaped init : forall last s t,
  shaped true NestedDict t = true ->
  forallb (fun seg => negb (isdigit seg)) (init ++ [last]) = true ->
  (forall r s', is_prefix r (init ++ [last]) = true -> node_at t r <> Some (NStr s')) ->
  node_at t (init ++ [last]) = None ->
  exists t',
    walk t init last (PStr s) = Ok t' /\
    shaped false NestedDict t' = true /\
    forall r,
      node_at t' r
      = if is_prefix r (init ++ [last])
        then (if is_prefix (init ++ [last]) r then Some (NStr s) else Some NDict)
        else node_at t r.
Proof.
  induction init as [| k0 init' IH]; intros last s t Hshape Hsegs Hfree Hvacant.
  - destruct (shaped_is_str_or_dict _ _ _ Hshape) as [[s0 ->] | [items ->]].
    { exfalso. apply (Hfree [] s0); reflexivity. }
    change ([] ++ [last]) with [last] in *.
    simpl in Hsegs. rewrite andb_true_r in Hsegs. apply negb_true_iff in Hsegs.
    exists (PDict NestedDict (dict_set last (PStr s) items)). split; [reflexivity |].
    split; [apply (shaped_set true); [exact Hshape | exact Hsegs | reflexivity] |].
    assert (Hnone : dict_get last items = None).
    { simpl in Hvacant. destruct (dict_get last items); [discriminate | reflexivity]. }
    intros [| k r']; [reflexivity |].
    cbn [node_at is_prefix]. rewrite dict_get_set.
    destruct (String.eqb_spec k last) as [-> | Hne].
    + rewrite String.eqb_refl, node_at_str, Hnone.
      destruct r'; reflexivity.
    + reflexivity.
  - destruct (shaped_is_str_or_dict _ _ _ Hshape) as [[s0 ->] | [items ->]].
    { exfalso. apply (Hfree [] s0); reflexivity. }
    change ((k0 :: init') ++ [last]) with (k0 :: (init' ++ [last])) in *.
    cbn [forallb] in Hsegs. apply andb_true_iff in Hsegs. destruct Hsegs as [Hk0 Hsegs].
    apply negb_true_iff in Hk0.
    set (sub0 := match dict_get k0 items with Some sub => sub | None => PDict NestedDict [] end).
    assert (Hwalk : walk (PDict NestedDict items) (k0 :: init') last (PStr s)
                    = (child <- walk sub0 init' last (PStr s) ;;
                       Ok (PDict NestedDict (dict_set k0 child items)))).
    { unfold sub0. cbn [walk]. destruct (dict_get k0 items); reflexivity. }
    assert (Hnode : forall r', node_at (PDict NestedDict items) (k0 :: r')
                               = match dict_get k0 items with
                                 | Some _ => node_at sub0 r'
                                 | None => None
                                 end).
    { intros r'. unfold sub0. cbn [node_at]. destruct (dict_get k0 items); reflexivity. }
    assert (Hsub0 : shaped true NestedDict sub0 = true).
    { unfold sub0. destruct (dict_get k0 items) as [sub |] eqn:Hget; [| reflexivity].
      apply shaped_weaken. eapply (shaped_child true); eassumption. }
    destruct (IH last s sub0 Hsub0 Hsegs) as (sub' & Hsub' & Hshape' & Hat).
    { intros r' s' Hpre Hr'.
      destruct (dict_get k0 items) as [sub |] eqn:Hget.
      - apply (Hfree (k0 :: r') s').
        + cbn [is_prefix]. rewrite String.eqb_refl. exact Hpre.
        + rewrite Hnode. exact Hr'.
      - unfold sub0 in Hr'. rewrite node_at_empty in Hr'.
        destruct r'; discriminate. }
    { destruct (dict_get k0 items) as [sub |] eqn:Hget.
      - rewrite Hnode in Hvacant. exact Hvacant.
      - unfold sub0. rewrite node_at_empty.
        destruct (init' ++ [last]) eqn:Hp; [| reflexivity].
        exfalso. exact (app_last_not_nil _ _ Hp). }
    exists (PDict NestedDict (dict_set k0 sub' items)).
    split; [rewrite Hwalk, Hsub'; reflexivity |].
    split; [apply (shaped_set true); assumption |].
    intros [| k r']; [reflexivity |].
    cbn [node_at is_prefix]. rewrite dict_get_set.
    destruct (String.eqb_spec k k0) as [-> | Hne].
    + rewrite String.eqb_refl. cbn [andb]. rewrite Hat.
      destruct (is_prefix r' (init' ++ [last])) eqn:Hpre; [reflexivity |].
      destruct (dict_get k0 items) as [sub |] eqn:Hget; [reflexivity |].
      unfold sub0. rewrite node_at_empty. destruct r'; [discriminate Hpre | reflexivity].
    + cbn [andb]. reflexivity.
Qed.

Lemma is_prefix_antisym p : forall q, is_prefix p q = true -> is_prefix q p = true -> p = q.
Proof.
  induction p as [| a p IH]; intros [| b q]; simpl; try discriminate; try reflexivity.
  rewrite !andb_true_iff. intros [Hab Hpq] [_ Hqp].
  apply String.eqb_eq in Hab. subst b. f_equal. apply IH; assumption.
Qed.

Lemma node_at_shaped r : forall top c t, shaped top c t = true -> node_at t r <> Some NOther.
Proof.
  induction r as [| k r IH]; intros top c t Hs.
  - destruct (shaped_is_str_or_dict _ _ _ Hs) as [[s ->] | [items ->]]; discriminate.
  - destruct (shaped_is_str_or_dict _ _ _ Hs) as [[s ->] | [items ->]]; [discriminate |].
    cbn [node_at]. destruct (dict_get k items) as [v |] eqn:Hget; [| discriminate].
    apply (IH false c). eapply shaped_child; eassumption.
Qed.

Lemma represents_empty : represents (PDict NestedDict []) [].
Proof.
  split; [reflexivity | split].
  - intros r s. rewrite node_at_empty. split; [destruct r; discriminate | intros []].
  - intros r. rewrite node_at_empty. split.
    + destruct r; [left; reflexivity | discriminate].
    + intros [-> | (p & s & [] & _)]. reflexivity.
Qed.

Lemma represents_ext t P P' :
  (forall x, In x P <-> In x P') -> represents t P -> represents t P'.
Proof.
  intros Hext (Hs & Hstr & Hdict). split; [exact Hs | split].
  - intros r s. rewrite Hstr. apply Hext.
  - intros r. rewrite Hdict. split; (intros [-> | (p & s & Hin & Hpre)]; [left; reflexivity |]);
      right; exists p, s; (split; [apply Hext; exact Hin | exact Hpre]).
Qed.

(** One more key, independent of those already decoded. *)
Lemma represents_walk t P init last s :
  represents t P ->
  forallb (fun seg => negb (isdigit seg)) (init ++ [last]) = true ->
  (forall q s', In (q, s') P -> independent (init ++ [last]) q = true) ->
  exists t', walk t init last (PStr s) = Ok t' /\ represents t' ((init ++ [last], s) :: P).
Proof.
  intros (Hs & Hstr & Hdict) Hsegs Hind.
  set (p := init ++ [last]) in *.
  assert (Hnot : forall q s', In (q, s') P -> is_prefix p q = false /\ is_prefix q p = false).
  { intros q s' Hin. specialize (Hind q s' Hin). unfold independent in Hind.
    apply andb_true_iff in Hind. rewrite !negb_true_iff in Hind. exact Hind. }
  destruct (walk_shaped init last s t Hs Hsegs) as (t' & Hwalk & Hs' & Hat).
  { intros r s' Hpre Hr. apply Hstr in Hr. apply Hnot in Hr. fold p in Hpre.
    destruct Hr as [_ Hr]. congruence. }
  { fold p. destruct (node_at t p) as [[s' | |] |] eqn:Hp.
    - apply Hstr in Hp. apply Hnot in Hp. rewrite is_prefix_refl in Hp.
      destruct Hp; discriminate.
    - apply Hdict in Hp. destruct Hp as [Hp | (q & s' & Hin & Hpq & _)].
      + exfalso. exact (app_last_not_nil _ _ Hp).
      + apply Hnot in Hin. destruct Hin; congruence.
    - exfalso. exact (node_at_shaped _ _ _ _ Hs Hp).
    - reflexivity. }
  fold p in Hat. exists t'. split; [exact Hwalk |].
  split; [apply shaped_weaken; exact Hs' | split].
  - intros r s'. rewrite Hat.
    destruct (is_prefix r p) eqn:E1; [destruct (is_prefix p r) eqn:E2 |].
    + assert (r = p) by (apply is_prefix_antisym; assumption). subst r. split.
      * intros [= ->]. left. reflexivity.
      * intros [[= ->] | Hin]; [reflexivity |].
        apply Hnot in Hin. rewrite is_prefix_refl in Hin. destruct Hin; discriminate.
    + split; [discriminate |]. intros [[= <-] | Hin].
      * rewrite is_prefix_refl in E2. discriminate.
      * apply Hnot in Hin. destruct Hin; congruence.
    + rewrite Hstr. split; [intros Hin; right; exact Hin |].
      intros [[= <-] | Hin]; [| exact Hin].
      rewrite is_prefix_refl in E1. discriminate.
  - intros r. rewrite Hat.
    destruct (is_prefix r p) eqn:E1; [destruct (is_prefix p r) eqn:E2 |].
    + assert (r = p) by (apply is_prefix_antisym; assumption). subst r.
      split; [discriminate |]. intros [Hp | (q & s' & [[= <- <-] | Hin] & Hpq & Hqp)].
      * exfalso. exact (app_last_not_nil _ _ Hp).
      * congruence.
      * apply Hnot in Hin. destruct Hin; congruence.
    + split; [| reflexivity]. intros _. right. exists p, s.
      split; [left; reflexivity | split; assumption].
    + rewrite Hdict. split.
      * intros [-> | (q & s' & Hin & Hpre)]; [left; reflexivity |].
        right. exists q, s'. split; [right; exact Hin | exact Hpre].
      * intros [-> | (q & s' & [[= <- <-] | Hin] & Hpq & Hqp)].
        -- left. reflexivity.
        -- congruence.
        -- right. exists q, s'. split; [exact Hin | split; assumption].
Qed.

Lemma unpack_last_app {A} (xs : list A) : forall init l,
  unpack_last xs = Some (init, l) -> xs = init ++ [l].
Proof.
  induction xs as [| x rest IH]; intros init l; [discriminate |].
  destruct rest as [| y rest'].
  - intros [= <- <-]. reflexivity.
  - change (unpack_last (x :: y :: rest'))
      with (match unpack_last (y :: rest') with
            | Some (init, l) => Some (x :: init, l)
            | None => None
            end).
    destruct (unpack_last (y :: rest')) as [[init' l'] |] eqn:Hu; [| discriminate].
    intros [= <- <-]. rewrite (IH init' l' eq_refl). reflexivity.
Qed.

(** Every key is walked along its path. *)
Lemma parse_item_walk out k v :
  exists init last, path_of k = init ++ [last] /\ parse_item out (k, v) = walk out init last v.
Proof.
  unfold parse_item, path_of. destruct (is_structured k).
  - destruct (segments_unpack k) as (init & last & Hu).
    exists init, last. rewrite Hu. split; [apply unpack_last_app; exact Hu | reflexivity].
  - exists [], k. split; reflexivity.
Qed.

(** The pairs of a form without index segments and without two keys, one
    of which leads through the other, are all decoded, and the tree holds
    exactly their values at their paths. *)
Lemma parse_items_represents pairs : forall t P,
  represents t P ->
  field_names_only (paths_of pairs) = true ->
  prefix_free (paths_of pairs) = true ->
  (forall p q s', In p (paths_of pairs) -> In (q, s') P -> independent p q = true) ->
  exists t',
    parse_items t (map (fun kv => (fst kv, PStr (snd kv))) pairs) = Ok t' /\
    represents t' (path_values pairs ++ P).
Proof.
  induction pairs as [| [k s] rest IH]; intros t P Hrep Hnames Hfree Hind.
  - exists t. split; [reflexivity | exact Hrep].
  - cbn [paths_of map fst field_names_only forallb prefix_free] in Hnames, Hfree.
    apply andb_true_iff in Hnames. destruct Hnames as [Hk Hnames].
    apply andb_true_iff in Hfree. destruct Hfree as [Hkrest Hfree].
    destruct (parse_item_walk t k (PStr s)) as (init & last & Hpath & Hitem).
    rewrite Hpath in Hk, Hkrest.
    destruct (represents_walk t P init last s Hrep Hk) as (t1 & Hwalk & Hrep1).
    { intros q s' Hin. rewrite <- Hpath. apply (Hind _ q s'); [left; reflexivity | exact Hin]. }
    destruct (IH t1 ((init ++ [last], s) :: P) Hrep1 Hnames Hfree) as (t' & Hparse & Hrep').
    { intros p q s' Hp [[= <- <-] | Hin].
      - rewrite independent_sym. rewrite forallb_forall in Hkrest. apply Hkrest. exact Hp.
      - apply (Hind _ q s'); [right; exact Hp | exact Hin]. }
    exists t'. split.
    + cbn [map parse_items fst snd]. rewrite Hitem, Hwalk. exact Hparse.
    + eapply represents_ext; [| exact Hrep'].
      intros x. cbn [path_values map fst snd]. rewrite Hpath.
      rewrite !in_app_iff. simpl. tauto.
Qed.

Lemma dict_get_map {A B} (f : A -> B) (k : string) (items : list (string * A)) :
  dict_get k (map (fun kv => (fst kv, f (snd kv))) items) = option_map f (dict_get k items).
Proof.
  induction items as [| [k' v'] rest IH]; simpl; [reflexivity |].
  destruct (String.eqb k k'); [reflexivity | exact IH].
Qed.

(** On a tree of the shape the normalizer only changes the class of the
    dictionaries. *)
Lemma normalize_shaped (t : pyval) : forall top c,
  shaped top c t = true ->
  shaped top Plain (indexed_dicts_to_lists t) = true /\
  forall r, node_at (indexed_dicts_to_lists t) r = node_at t r.
Proof.
  induction t as [| z | s | xs IH | c' items IH] using pyval_ind;
    intros top c Hs; try discriminate.
  - split; [reflexivity | reflexivity].
  - pose proof (shaped_dict _ _ _ _ Hs) as (-> & Hne & Hd & Hall).
    assert (Hguard : all_keys_digit items = false \/ items = []).
    { destruct items as [| [k v] rest]; [right; reflexivity | left].
      cbn [forallb] in Hall. rewrite !andb_true_iff in Hall.
      destruct Hall as [[Hk _] _]. apply negb_true_iff in Hk. simpl in Hk.
      unfold all_keys_digit. simpl. rewrite Hk. reflexivity. }
    assert (Hitem : forall kv, In kv items ->
              normalized_item (snd kv) = indexed_dicts_to_lists (snd kv)).
    { intros [k v] Hin. rewrite forallb_forall in Hall. specialize (Hall _ Hin).
      simpl in Hall. apply andb_true_iff in Hall. destruct Hall as [_ Hv]. simpl.
      destruct (shaped_is_str_or_dict _ _ _ Hv) as [[s ->] | [sub ->]]; [reflexivity |].
      pose proof (shaped_dict _ _ _ _ Hv) as (_ & [Hf | Hsub] & _ & Hsuball); [discriminate |].
      destruct sub as [| [k1 v1] sub']; [contradiction |].
      cbn [forallb] in Hsuball. rewrite !andb_true_iff in Hsuball.
      destruct Hsuball as [[Hk1 _] _]. apply negb_true_iff in Hk1. simpl in Hk1.
      cbn [normalized_item]. unfold all_keys_digit. simpl forallb. rewrite Hk1. reflexivity. }
    assert (Hf : indexed_dicts_to_lists (PDict c items)
                 = PDict Plain (map (fun kv => (fst kv, indexed_dicts_to_lists (snd kv))) items)).
    { rewrite indexed_dicts_to_lists_dict.
      assert (Hg : negb (is_empty items) && all_keys_digit items = false).
      { destruct Hguard as [-> | ->]; [apply andb_false_r | reflexivity]. }
      rewrite Hg. f_equal. unfold normalized_items. rewrite loop_fresh.
      - simpl. apply map_ext_in. intros kv Hin. rewrite (Hitem kv Hin). reflexivity.
      - apply distinct_NoDup. exact Hd.
      - intros k _ []. }
    rewrite Hf. split.
    + simpl. rewrite !andb_true_iff. repeat split.
      * destruct Hne as [-> | Hne]; [reflexivity |].
        destruct items; [contradiction | apply orb_true_r].
      * unfold keys in *. rewrite map_map. simpl. exact Hd.
      * rewrite forallb_forall. intros kv' Hin'. apply in_map_iff in Hin'.
        destruct Hin' as (kv & <- & Hin). simpl.
        rewrite forallb_forall in Hall. pose proof (Hall _ Hin) as Hkv.
        apply andb_true_iff in Hkv. destruct Hkv as [Hk Hv]. rewrite Hk. simpl.
        rewrite Forall_forall in IH. apply (IH kv Hin false c Hv).
    + intros [| k r']; [reflexivity |].
      cbn [node_at]. rewrite dict_get_map.
      destruct (dict_get k items) as [v |] eqn:Hget; [| reflexivity]. simpl.
      pose proof (dict_get_some_in _ _ _ Hget) as Hin.
      rewrite Forall_forall in IH. rewrite forallb_forall in Hall.
      pose proof (Hall _ Hin) as Hkv. simpl in Hkv.
      apply andb_true_iff in Hkv. destruct Hkv as [_ Hv].
      apply (IH (k, v) Hin false c Hv).
Qed.

Lemma represents_same t t' P P' :
  represents t P -> represents t' P' -> (forall x, In x P <-> In x P') ->
  forall r, node_at t r = node_at t' r.
Proof.
  intros Hrep Hrep' Hext r.
  apply (represents_ext t' P' P) in Hrep'; [| intros x; symmetry; apply Hext].
  destruct Hrep as (Hs & Hstr & Hdict). destruct Hrep' as (Hs' & Hstr' & Hdict').
  destruct (node_at t r) as [[s | |] |] eqn:Hr.
  - symmetry. apply Hstr'. apply Hstr. exact Hr.
  - symmetry. apply Hdict'. apply Hdict. exact Hr.
  - exfalso. exact (node_at_shaped _ _ _ _ Hs Hr).
  - destruct (node_at t' r) as [[s | |] |] eqn:Hr'; [| | | reflexivity].
    + apply Hstr', Hstr in Hr'. congruence.
    + apply Hdict', Hdict in Hr'. congruence.
    + exfalso. exact (node_at_shaped _ _ _ _ Hs' Hr').
Qed.

Lemma alike_cases v w :
  alike v w ->
  (exists s, v = PStr s /\ w = PStr s) \/
  (exists xs ys, v = PDict Plain xs /\ w = PDict Plain ys).
Proof.
  intros (Hv & Hw & Hat). specialize (Hat []). simpl in Hat.
  destruct (shaped_is_str_or_dict _ _ _ Hv) as [[s ->] | [xs ->]];
    destruct (shaped_is_str_or_dict _ _ _ Hw) as [[s' ->] | [ys ->]];
    simpl in Hat; try discriminate.
  - injection Hat as ->. left. exists s'. split; reflexivity.
  - right. exists xs, ys. split; reflexivity.
Qed.

Lemma alike_get c xs c' ys k :
  alike (PDict c xs) (PDict c' ys) ->
  match dict_get k xs, dict_get k ys with
  | Some v, Some w => alike v w
  | None, None => True
  | _, _ => False
  end.
Proof.
  intros (Hv & Hw & Hat).
  assert (Hk : forall r, match dict_get k xs with Some v => node_at v r | None => None end
                         = match dict_get k ys with Some w => node_at w r | None => None end).
  { intros r. exact (Hat (k :: r)). }
  destruct (dict_get k xs) as [v |] eqn:Hx; destruct (dict_get k ys) as [w |] eqn:Hy.
  - split; [| split; [| exact Hk]]; apply shaped_weaken.
    + exact (proj2 (shaped_child true Plain c xs k v Hv Hx)).
    + exact (proj2 (shaped_child true Plain c' ys k w Hw Hy)).
  - specialize (Hk []). discriminate Hk.
  - specialize (Hk []). discriminate Hk.
  - exact I.
Qed.

(** Python's [==] holds between trees that are alike. *)
Lemma alike_py_eq (a : pyval) : forall b, alike a b -> py_eq a b = true.
Proof.
  induction a as [| z | s | xs IH | c items IH] using pyval_ind; intros b Hab;
    destruct (alike_cases _ _ Hab) as [(s0 & Ha & Hb) | (xs0 & ys & Ha & Hb)];
    try discriminate.
  - injection Ha as <-. subst b. simpl. apply String.eqb_refl.
  - injection Ha as Hc Hitems. subst c xs0 b.
    pose proof Hab as (Hv & Hw & Hat).
    pose proof (shaped_dict _ _ _ _ Hv) as (_ & _ & Hdx & Hallx).
    pose proof (shaped_dict _ _ _ _ Hw) as (_ & _ & Hdy & _).
    apply distinct_NoDup in Hdx. apply distinct_NoDup in Hdy.
    assert (Hkeys : forall k, In k (keys items) <-> In k (keys ys)).
    { intros k. pose proof (alike_get _ _ _ _ k Hab) as Hk.
      pose proof (dict_get_none k items) as Hx. pose proof (dict_get_none k ys) as Hy.
      destruct (dict_get k items), (dict_get k ys); try contradiction.
      - split; intros _.
        + destruct (in_dec string_dec k (keys ys)) as [H | H]; [exact H |].
          apply Hy in H. discriminate.
        + destruct (in_dec string_dec k (keys items)) as [H | H]; [exact H |].
          apply Hx in H. discriminate.
      - split; intros H; exfalso.
        + apply (proj1 Hx eq_refl). exact H.
        + apply (proj1 Hy eq_refl). exact H. }
    change (py_eq (PDict Plain items) (PDict Plain ys))
      with (Nat.eqb (length items) (length ys) &&
            forallb (fun kv => match dict_get (fst kv) ys with
                               | Some w => py_eq (snd kv) w
                               | None => false
                               end) items).
    apply andb_true_iff. split.
    + apply Nat.eqb_eq.
      rewrite <- (length_map fst items), <- (length_map fst ys).
      apply Nat.le_antisymm; apply NoDup_incl_length; try assumption;
        intros k Hk; apply Hkeys; exact Hk.
    + apply forallb_forall. intros [k v] Hin. simpl.
      pose proof (alike_get _ _ _ _ k Hab) as Hk.
      rewrite (dict_get_in k v items Hdx Hin) in Hk.
      destruct (dict_get k ys) as [w |]; [| contradiction].
      rewrite Forall_forall in IH. apply (IH (k, v) Hin w Hk).
Qed.

(** A validator that treats all dictionaries the same gives the same
    result on trees that are alike. *)
Lemma alike_flat {A} (validate : pyval -> validated A) v w :
  (forall xs ys, validate (PDict Plain xs) = validate (PDict Plain ys)) ->
  alike v w -> validate v = validate w.
Proof.
  intros Hflat Hvw.
  destruct (alike_cases _ _ Hvw) as [(s & -> & ->) | (xs & ys & -> & ->)];
    [reflexivity | apply Hflat].
Qed.

Lemma alike_required {A} (field : string) (validate : pyval -> validated A) xs ys :
  (forall v w, alike v w -> validate v = validate w) ->
  alike (PDict Plain xs) (PDict Plain ys) ->
  required field validate xs = required field validate ys.
Proof.
  intros Hval Hd. pose proof (alike_get _ _ _ _ field Hd) as Hk. unfold required.
  destruct (dict_get field xs), (dict_get field ys); try contradiction; [| reflexivity].
  rewrite (Hval _ _ Hk). reflexivity.
Qed.

Lemma alike_defaulted {A} (field : string) (validate : pyval -> validated A) default xs ys :
  (forall v w, alike v w -> validate v = validate w) ->
  alike (PDict Plain xs) (PDict Plain ys) ->
  defaulted field validate default xs = defaulted field validate default ys.
Proof.
  intros Hval Hd. pose proof (alike_get _ _ _ _ field Hd) as Hk. unfold defaulted.
  destruct (dict_get field xs), (dict_get field ys); try contradiction; [| reflexivity].
  rewrite (Hval _ _ Hk). reflexivity.
Qed.

Lemma alike_Address_fields xs ys :
  alike (PDict Plain xs) (PDict Plain ys) -> Address_fields xs = Address_fields ys.
Proof.
  intros Hd. unfold Address_fields.
  rewrite (alike_required "house_number" validate_int xs ys),
          (alike_required "street" validate_str xs ys),
          (alike_required "city" validate_str xs ys); try assumption; try reflexivity;
    intros v w Hvw; apply alike_flat; try assumption; reflexivity.
Qed.

Lemma alike_address v w :
  alike v w ->
  validate_optional (validate_model Address_fields) v
  = validate_optional (validate_model Address_fields) w.
Proof.
  intros Hvw.
  destruct (alike_cases _ _ Hvw) as [(s & -> & ->) | (xs & ys & -> & ->)]; [reflexivity |].
  simpl. rewrite (alike_Address_fields xs ys Hvw). reflexivity.
Qed.

Section OrderOfFields.

Variable datetime : Type.
Variable to_datetime : pyval -> option datetime.

Lemma alike_Person_fields xs ys :
  alike (PDict Plain xs) (PDict Plain ys) ->
  Person_fields datetime to_datetime xs = Person_fields datetime to_datetime ys.
Proof.
  intros Hd. unfold Person_fields.
  rewrite (alike_required "name" validate_str xs ys),
          (alike_required "age" validate_non_negative_int xs ys),
          (alike_defaulted "job" validate_str "Developer" xs ys),
          (alike_defaulted "address" (validate_optional (validate_model Address_fields))
             None xs ys),
          (alike_defaulted "hobbies" (validate_list validate_str) [] xs ys),
          (alike_defaulted "contacts"
             (validate_list (validate_contact datetime to_datetime)) [] xs ys);
    try assumption; try reflexivity;
    try (intros v w Hvw; apply alike_flat; try assumption; reflexivity).
  apply alike_address.
Qed.

End OrderOfFields.

Lemma independent_forallb_perm p l l' :
  Permutation l l' -> forallb (independent p) l = true -> forallb (independent p) l' = true.
Proof.
  intros Hperm. rewrite !forallb_forall. intros H q Hq.
  apply H. eapply Permutation_in; [apply Permutation_sym; exact Hperm | exact Hq].
Qed.

Lemma prefix_free_perm l l' :
  Permutation l l' -> prefix_free l = true -> prefix_free l' = true.
Proof.
  induction 1 as [| p l l' Hperm IH | p q l | l l' l'' _ IH1 _ IH2]; simpl.
  - trivial.
  - rewrite !andb_true_iff. intros [Hp Hl]. split; [| apply IH; exact Hl].
    eapply independent_forallb_perm; eassumption.
  - rewrite !andb_true_iff. intros [[Hqp Hq] [Hp Hl]].
    rewrite independent_sym. repeat split; assumption.
  - intros H. apply IH2, IH1, H.
Qed.

Lemma field_names_only_perm l l' :
  Permutation l l' -> field_names_only l = true -> field_names_only l' = true.
Proof.
  intros Hperm. unfold field_names_only. rewrite !forallb_forall. intros H p Hp.
  apply H. eapply Permutation_in; [apply Permutation_sym; exact Hperm | exact Hp].
Qed.

(** The decoding of a form without index segments whose keys do not lead
    through one another. *)
Lemma decode_fields_form pairs :
  field_names_only (paths_of pairs) = true ->
  prefix_free (paths_of pairs) = true ->
  exists t items,
    represents t (path_values pairs) /\
    json_editor_parse (form pairs) = Ok (PDict Plain items) /\
    shaped true Plain (PDict Plain items) = true /\
    forall r, node_at (PDict Plain items) r = node_at t r.
Proof.
  intros Hnames Hfree.
  destruct (parse_items_represents pairs (PDict NestedDict []) [] represents_empty Hnames Hfree)
    as (t & Hparse & Hrep).
  { intros p q s' _ []. }
  rewrite app_nil_r in Hrep.
  pose proof Hrep as (Hs & _ & Hdict).
  destruct (normalize_shaped t true NestedDict Hs) as (Hs' & Hat).
  destruct (shaped_is_str_or_dict _ _ _ Hs') as [[s Hstr] | [items Hitems]].
  - exfalso. assert (Hroot : node_at t [] = Some NDict) by (apply Hdict; left; reflexivity).
    rewrite <- Hat, Hstr in Hroot. discriminate.
  - exists t, items. rewrite <- Hitems.
    split; [exact Hrep | split; [| split; [exact Hs' | exact Hat]]].
    unfold json_editor_parse, form. rewrite Hparse. reflexivity.
Qed.

(** C2, on the claim as written: the same pairs in two orders decode
    differently.  A scalar submitted after a field below it replaces the
    dictionary, submitted before it makes the walk fail; and the values
    under index keys come out in the order of submission. *)
Lemma order_of_submission_matters :
  Permutation [("root[address][street]", "Main"); ("root[address]", "foo")]
              [("root[address]", "foo"); ("root[address][street]", "Main")] /\
  json_editor_parse (form [("root[address][street]", "Main"); ("root[address]", "foo")])
  = Ok (PDict Plain [("address", PStr "foo")]) /\
  json_editor_parse (form [("root[address]", "foo"); ("root[address][street]", "Main")])
  = Raise (TypeError "'str' object does not support item assignment") /\
  Permutation [("root[hobbies][0]", "Walking"); ("root[hobbies][1]", "Reading")]
              [("root[hobbies][1]", "Reading"); ("root[hobbies][0]", "Walking")] /\
  json_editor_parse (form [("root[hobbies][0]", "Walking"); ("root[hobbies][1]", "Reading")])
  = Ok (PDict Plain [("hobbies", PList [PStr "Walking"; PStr "Reading"])]) /\
  json_editor_parse (form [("root[hobbies][1]", "Reading"); ("root[hobbies][0]", "Walking")])
  = Ok (PDict Plain [("hobbies", PList [PStr "Reading"; PStr "Walking"])]) /\
  py_eq (PDict Plain [("hobbies", PList [PStr "Walking"; PStr "Reading"])])
        (PDict Plain [("hobbies", PList [PStr "Reading"; PStr "Walking"])]) = false.
Proof.
  split; [apply perm_swap |]. split; [reflexivity |]. split; [reflexivity |].
  split; [apply perm_swap |]. repeat split.
Qed.

(** C2, as the code has it.  Take a form whose keys are ASCII texts, in
    which no key has a segment made of digits and no key's path leads
    through (or equals) the path of another key.  Decoding any
    permutation of its pairs succeeds, the two normalized trees are equal
    as Python values (the same keys and values at every level, whatever
    the order of the entries), and the validation results are
    identical. *)
Theorem decoding_ignores_order_of_independent_fields :
  forall (datetime : Type) (to_datetime : pyval -> option datetime)
         (pairs pairs' : list (string * string)),
    Permutation pairs pairs' ->
    forallb is_ascii (keys pairs) = true ->
    field_names_only (paths_of pairs) = true ->
    prefix_free (paths_of pairs) = true ->
    exists d d',
      json_editor_parse (form pairs) = Ok d /\
      json_editor_parse (form pairs') = Ok d' /\
      py_eq d d' = true /\
      model_validate datetime to_datetime (form pairs)
      = model_validate datetime to_datetime (form pairs').
Proof.
  intros datetime to_datetime pairs pairs' Hperm _ Hnames Hfree.
  assert (Hpaths : Permutation (paths_of pairs) (paths_of pairs')).
  { apply Permutation_map. exact Hperm. }
  destruct (decode_fields_form pairs Hnames Hfree) as (t & xs & Hrep & Hdec & Hs & Hat).
  destruct (decode_fields_form pairs'
              (field_names_only_perm _ _ Hpaths Hnames)
              (prefix_free_perm _ _ Hpaths Hfree))
    as (t' & ys & Hrep' & Hdec' & Hs' & Hat').
  assert (Halike : alike (PDict Plain xs) (PDict Plain ys)).
  { split; [exact Hs | split; [exact Hs' |]].
    intros r. rewrite Hat, Hat'.
    apply (represents_same t t' (path_values pairs) (path_values pairs') Hrep Hrep').
    intros x. split; apply Permutation_in; unfold path_values;
      [| apply Permutation_sym]; apply Permutation_map; exact Hperm. }
  exists (PDict Plain xs), (PDict Plain ys).
  split; [exact Hdec | split; [exact Hdec' | split]].
  - apply alike_py_eq. exact Halike.
  - unfold model_validate. rewrite Hdec, Hdec'. cbn [validate_model].
    rewrite (alike_Person_fields datetime to_datetime xs ys Halike). reflexivity.
Qed.

Lemma decoding_ignores_order_of_independent_fields_witness :
  exists d d',
    json_editor_parse
      (form [("name", "Ann"); ("root[address][street]", "Main St"); ("age", "30")]) = Ok d /\
    json_editor_parse
      (form [("root[address][street]", "Main St"); ("name", "Ann"); ("age", "30")]) = Ok d' /\
    py_eq d d' = true /\
    model_validate unit (fun _ => None)
      (form [("name", "Ann"); ("root[address][street]", "Main St"); ("age", "30")])
    = model_validate unit (fun _ => None)
        (form [("root[address][street]", "Main St"); ("name", "Ann"); ("age", "30")]).
Proof.
  apply (decoding_ignores_order_of_independent_fields unit (fun _ => None)
           [("name", "Ann"); ("root[address][street]", "Main St"); ("age", "30")]
           [("root[address][street]", "Main St"); ("name", "Ann"); ("age", "30")]).
  - apply perm_swap.
  - reflexivity.
  - reflexivity.
  - reflexivity.
Defined.

(** ** Round trip through the flat form *)

Lemma append_nil_r (s : string) : (s ++ "")%string = s.
Proof. induction s as [| c s IH]; simpl; [reflexivity | rewrite IH; reflexivity]. Qed.

Lemma append_assoc (a b c : string) : ((a ++ b) ++ c)%string = (a ++ (b ++ c))%string.
Proof. induction a as [| x a IH]; simpl; [reflexivity | rewrite IH; reflexivity]. Qed.

Lemma length_append (a b : string) :
  String.length (a ++ b) = String.length a + String.length b.
Proof. induction a as [| x a IH]; simpl; [reflexivity | rewrite IH; reflexivity]. Qed.

Lemma startswith_app (p y : string) : startswith p (p ++ y) = true.
Proof.
  unfold startswith. induction p as [| a p IH]; simpl; [destruct y; reflexivity |].
  destruct (ascii_dec a a) as [_ | Hne]; [exact IH | contradiction].
Qed.

Lemma substring_skip (p y : string) m :
  substring (String.length p) m (p ++ y) = substring 0 m y.
Proof. induction p as [| a p IH]; simpl; [reflexivity | exact IH]. Qed.

Lemma substring_all y : substring 0 (String.length y) y = y.
Proof. induction y as [| a y IH]; simpl; [reflexivity | rewrite IH; reflexivity]. Qed.

Lemma substring_take (x suf : string) : substring 0 (String.length x) (x ++ suf) = x.
Proof.
  induction x as [| a x IH]; simpl.
  - destruct suf; reflexivity.
  - rewrite IH. reflexivity.
Qed.

Lemma removeprefix_app (p y : string) : removeprefix p (p ++ y) = y.
Proof.
  unfold removeprefix. rewrite startswith_app, length_append.
  replace (String.length p + String.length y - String.length p) with (String.length y) by lia.
  rewrite substring_skip. apply substring_all.
Qed.

Lemma endswith_app (x suf : string) : endswith suf (x ++ suf) = true.
Proof.
  unfold endswith. rewrite length_append.
  replace (String.length x + String.length suf - String.length suf)
    with (String.length x) by lia.
  rewrite substring_skip, substring_all, String.eqb_refl, andb_true_r.
  apply Nat.leb_le. lia.
Qed.

Lemma removesuffix_app (x suf : string) : removesuffix suf (x ++ suf) = x.
Proof.
  unfold removesuffix. rewrite endswith_app, length_append.
  replace (String.length x + String.length suf - String.length suf)
    with (String.length x) by lia.
  apply substring_take.
Qed.

(** A piece without a closing bracket is read through. *)
Lemma split_go_segment (a : string) : forall cur rest : string,
  no_close a = true ->
  split_go "][" 0 cur (a ++ rest) = split_go "][" 0 (cur ++ a) rest.
Proof.
  induction a as [| c a IH]; intros cur rest Ha.
  - rewrite append_nil_r. reflexivity.
  - simpl in Ha. apply andb_true_iff in Ha. destruct Ha as [Hc Ha].
    apply negb_true_iff, Ascii.eqb_neq in Hc.
    change (String c a ++ rest)%string with (String c (a ++ rest)).
    cbn [split_go String.prefix].
    destruct (ascii_dec "]" c) as [Heq | _]; [congruence |].
    rewrite IH by exact Ha. rewrite append_assoc. reflexivity.
Qed.

Lemma split_go_separator (cur rest : string) :
  split_go "][" 0 cur ("][" ++ rest) = cur :: split_go "][" 0 "" rest.
Proof. destruct rest; reflexivity. Qed.

Lemma split_concat segs : forall cur x : string,
  Forall (fun seg => no_close seg = true) (x :: segs) ->
  split_go "][" 0 cur (String.concat "][" (x :: segs)) = (cur ++ x)%string :: segs.
Proof.
  induction segs as [| y segs IH]; intros cur x Hall.
  - inversion Hall as [| ? ? Hx _]; subst. simpl.
    rewrite <- (append_nil_r x) at 1. rewrite split_go_segment by exact Hx. reflexivity.
  - inversion Hall as [| ? ? Hx Hrest]; subst.
    change (String.concat "][" (x :: y :: segs))
      with (x ++ "][" ++ String.concat "][" (y :: segs))%string.
    rewrite split_go_segment by exact Hx. rewrite split_go_separator.
    rewrite (IH "" y Hrest). reflexivity.
Qed.

(** The key splitter undoes the construction of a key. *)
Lemma segments_bracket_key path :
  path <> [] -> Forall (fun seg => no_close seg = true) path ->
  is_structured (bracket_key path) = true /\ segments (bracket_key path) = path.
Proof.
  intros Hne Hall. destruct path as [| x segs]; [contradiction |].
  unfold is_structured, segments, bracket_key. split.
  - rewrite startswith_app. rewrite <- append_assoc, endswith_app. reflexivity.
  - rewrite removeprefix_app, removesuffix_app. unfold split.
    rewrite (split_concat segs "" x Hall). reflexivity.
Qed.



Lemma unpack_last_cons {A} (x : A) (xs : list A) :
  xs <> [] ->
  unpack_last (x :: xs)
  = match unpack_last xs with
    | Some (init, l) => Some (x :: init, l)
    | None => None
    end.
Proof. destruct xs; [contradiction | reflexivity]. Qed.

Lemma dict_get_app_last {A} (base : list (string * A)) f sub :
  ~ In f (keys base) -> dict_get f (base ++ [(f, sub)]) = Some sub.
Proof.
  induction base as [| [k v] base IH]; simpl; intros Hf.
  - rewrite String.eqb_refl. reflexivity.
  - destruct (String.eqb_spec f k) as [-> | _].
    + exfalso. apply Hf. left. reflexivity.
    + apply IH. intros Hin. apply Hf. right. exact Hin.
Qed.

Lemma dict_set_app_last {A} (base : list (string * A)) f sub child :
  ~ In f (keys base) -> dict_set f child (base ++ [(f, sub)]) = base ++ [(f, child)].
Proof.
  induction base as [| [k v] base IH]; simpl; intros Hf.
  - rewrite String.eqb_refl. reflexivity.
  - destruct (String.eqb_spec f k) as [-> | _].
    + exfalso. apply Hf. left. reflexivity.
    + rewrite IH; [reflexivity |]. intros Hin. apply Hf. right. exact Hin.
Qed.

(** A walk that starts with the last key of a dictionary goes on below
    it and stores the result there. *)
Lemma walk_below_existing base f sub init last v :
  ~ In f (keys base) ->
  walk (PDict NestedDict (base ++ [(f, sub)])) (f :: init) last v
  = (child <- walk sub init last v ;; Ok (PDict NestedDict (base ++ [(f, child)]))).
Proof.
  intros Hf. cbn [walk]. rewrite (dict_get_app_last base f sub Hf).
  destruct (walk sub init last v) as [child | e]; simpl; [| reflexivity].
  rewrite (dict_set_app_last base f sub child Hf). reflexivity.
Qed.

(** A walk that starts with a new key creates the dictionary below it. *)
Lemma walk_below_new base f init last v :
  ~ In f (keys base) ->
  walk (PDict NestedDict base) (f :: init) last v
  = (child <- walk (PDict NestedDict []) init last v ;;
     Ok (PDict NestedDict (base ++ [(f, child)]))).
Proof.
  intros Hf. cbn [walk]. rewrite (proj2 (dict_get_none f base) Hf).
  destruct (walk (PDict NestedDict []) init last v) as [child | e]; simpl; [| reflexivity].
  rewrite (dict_set_new f child base Hf). reflexivity.
Qed.

Lemma walk_all_below_existing base f pvs : forall sub sub',
  ~ In f (keys base) ->
  Forall (fun ps => fst ps <> []) pvs ->
  walk_all sub pvs = Ok sub' ->
  walk_all (PDict NestedDict (base ++ [(f, sub)])) (map (below f) pvs)
  = Ok (PDict NestedDict (base ++ [(f, sub')])).
Proof.
  induction pvs as [| [path s] rest IH]; intros sub sub' Hf Hall Hsub.
  - injection Hsub as <-. reflexivity.
  - inversion Hall as [| ? ? Hne Hrest]; subst. simpl in Hne.
    cbn [walk_all] in Hsub. cbn [map below fst snd walk_all].
    rewrite (unpack_last_cons f path Hne).
    destruct (unpack_last path) as [[sub_ks leaf] |]; [| discriminate].
    apply bind_ok in Hsub. destruct Hsub as (t' & Hwalk & Hsub).
    rewrite (walk_below_existing base f sub sub_ks leaf (PStr s) Hf), Hwalk. simpl.
    apply IH; assumption.
Qed.

Lemma walk_all_below_new base f pvs sub' :
  ~ In f (keys base) ->
  pvs <> [] ->
  Forall (fun ps => fst ps <> []) pvs ->
  walk_all (PDict NestedDict []) pvs = Ok sub' ->
  walk_all (PDict NestedDict base) (map (below f) pvs)
  = Ok (PDict NestedDict (base ++ [(f, sub')])).
Proof.
  intros Hf Hne Hall Hsub. destruct pvs as [| [path s] rest]; [contradiction |].
  inversion Hall as [| ? ? Hpath Hrest]; subst. simpl in Hpath.
  cbn [walk_all] in Hsub. cbn [map below fst snd walk_all].
  rewrite (unpack_last_cons f path Hpath).
  destruct (unpack_last path) as [[sub_ks leaf] |]; [| discriminate].
  apply bind_ok in Hsub. destruct Hsub as (t' & Hwalk & Hsub).
  rewrite (walk_below_new base f sub_ks leaf (PStr s) Hf), Hwalk. simpl.
  change (map (fun ps => (f :: fst ps, snd ps)) rest) with (map (below f) rest).
  apply walk_all_below_existing; assumption.
Qed.

(** *** Decimal texts *)







(** *** Sequences under index keys *)








Section RoundTrip.

Variable datetime : Type.
Variable to_datetime : pyval -> option datetime.
Variable isoformat : datetime -> string.

(** The text written for a [datetime] is read back as that [datetime]. *)
Hypothesis to_datetime_isoformat : forall d, to_datetime (PStr (isoformat d)) = Some d.

Let dump_contact := Contact_dump datetime isoformat.









Lemma validate_strs hs : forall i, validate_items validate_str i (map PStr hs) = Valid hs.
Proof.
  induction hs as [| h hs IH]; intros i; [reflexivity |].
  cbn [map validate_items]. rewrite IH. reflexivity.
Qed.

Lemma validate_dumped_contact c :
  validate_contact datetime to_datetime (dump_contact c) = Valid c.
Proof.
  destruct c as [n | n d | n r]; try reflexivity.
  unfold validate_contact, dump_contact, Contact_dump. simpl.
  unfold required. simpl. unfold validate_datetime.
  rewrite to_datetime_isoformat. reflexivity.
Qed.

Lemma validate_contacts cs : forall i,
  validate_items (validate_contact datetime to_datetime) i (map dump_contact cs) = Valid cs.
Proof.
  induction cs as [| c cs IH]; intros i; [reflexivity |].
  cbn [map validate_items]. rewrite IH, validate_dumped_contact. reflexivity.
Qed.

End RoundTrip.

(** *** The sections of a decoded person *)










(** * Further properties of the decoder *)

(** *** Padding and assignment in lists *)

Lemma pad_length i x xs : length (pad i x xs) = Nat.max (S i) (length xs).
Proof. unfold pad. rewrite length_app, repeat_length. lia. Qed.

Lemma pad_nth_error_old i x xs j :
  j < length xs -> nth_error (pad i x xs) j = nth_error xs j.
Proof. intros Hj. unfold pad. apply nth_error_app1. exact Hj. Qed.

Lemma pad_nth_error_new i x xs j :
  length xs <= j -> j <= i -> nth_error (pad i x xs) j = Some x.
Proof.
  intros Hlo Hhi. unfold pad. rewrite nth_error_app2 by exact Hlo.
  apply nth_error_repeat. lia.
Qed.

Lemma list_set_length i v xs : length (list_set i v xs) = length xs.
Proof.
  revert i. induction xs as [| x rest IH]; intros [| j]; simpl; try reflexivity.
  rewrite IH. reflexivity.
Qed.

Lemma list_set_nth_error i v xs j :
  nth_error (list_set i v xs) j
  = if Nat.eqb j i && Nat.ltb i (length xs) then Some v else nth_error xs j.
Proof.
  revert i j. induction xs as [| x rest IH]; intros i j.
  - destruct i, j; simpl; try reflexivity. rewrite andb_false_r. reflexivity.
  - destruct i as [| i], j as [| j]; simpl; try reflexivity.
    rewrite IH. reflexivity.
Qed.

Lemma list_set_pad_same i v x xs :
  nth_error (list_set i v (pad i x xs)) i = Some v.
Proof.
  rewrite list_set_nth_error, Nat.eqb_refl.
  assert (H : Nat.ltb i (length (pad i x xs)) = true).
  { apply Nat.ltb_lt. rewrite pad_length. lia. }
  rewrite H. reflexivity.
Qed.

Lemma nth_pad_default i x xs :
  nth_error (pad i x xs) i = Some (nth i (pad i x xs) PNone).
Proof.
  apply nth_error_nth'. rewrite pad_length. lia.
Qed.

Lemma walk_lookup :
  forall (sub_ks : list string) (leaf : string) (v t t' : pyval),
    walk t sub_ks leaf v = Ok t' ->
    lookup t' (sub_ks ++ [leaf]) = Some v.
Proof.
  induction sub_ks as [| sub_k rest IH]; intros leaf v t t' Hw.
  - destruct t as [| z | s | xs | c items]; simpl in Hw; try discriminate.
    + destruct (isdigit leaf) eqn:Hd; simpl in Hw; [| discriminate].
      injection Hw as <-. simpl. rewrite Hd, list_set_pad_same. reflexivity.
    + injection Hw as <-. simpl. rewrite dict_get_set, String.eqb_refl. reflexivity.
  - destruct t as [| z | s | xs | c items]; cbn [walk] in Hw; try discriminate.
    + destruct (isdigit sub_k) eqn:Hd; simpl negb in Hw; cbv iota in Hw; [| discriminate].
      match type of Hw with
      | (bind (walk ?n _ _ _) _) = _ => destruct (walk n rest leaf v) as [child |] eqn:Hc
      end; simpl in Hw; [| discriminate].
      injection Hw as <-. rewrite <- app_comm_cons; cbn [lookup]. rewrite Hd, list_set_pad_same.
      apply (IH _ _ _ _ Hc).
    + destruct (dict_get sub_k items) as [sub |] eqn:Hget.
      * destruct (walk sub rest leaf v) as [child |] eqn:Hc; simpl in Hw; [| discriminate].
        injection Hw as <-. rewrite <- app_comm_cons; cbn [lookup]. rewrite dict_get_set, String.eqb_refl.
        apply (IH _ _ _ _ Hc).
      * destruct c; [discriminate |].
        destruct (walk (PDict NestedDict []) rest leaf v) as [child |] eqn:Hc;
          simpl in Hw; [| discriminate].
        injection Hw as <-. rewrite <- app_comm_cons; cbn [lookup]. rewrite dict_get_set, String.eqb_refl.
        apply (IH _ _ _ _ Hc).
Qed.

(** X1. A decoded key is read back: once the body of the loop has stored
    the pair [(k, v)], following the segments of [k] from the root of the
    tree, each as the key of a dictionary or as the index [int(seg)] of a
    list, reaches [v]. *)
Theorem decoded_key_is_found :
  forall (out out' : pyval) (k : string) (v : pyval),
    parse_item out (k, v) = Ok out' ->
    lookup out' (path_of k) = Some v.
Proof.
  intros out out' k v Hp.
  destruct (parse_item_walk out k v) as (init & last & Hpath & Hwalk).
  rewrite Hpath. apply (walk_lookup init last v out out'). rewrite <- Hwalk. exact Hp.
Qed.

Lemma decoded_key_is_found_witness :
  parse_item (PDict NestedDict []) ("root[address][street]", PStr "Main St")
  = Ok (PDict NestedDict [("address", PDict NestedDict [("street", PStr "Main St")])])
  /\ lookup (PDict NestedDict [("address", PDict NestedDict [("street", PStr "Main St")])])
            (path_of "root[address][street]") = Some (PStr "Main St").
Proof.
  split; [reflexivity |].
  apply (decoded_key_is_found (PDict NestedDict []) _ "root[address][street]" (PStr "Main St")).
  reflexivity.
Defined.

Lemma walk_top_level sub_ks leaf v c items t' :
  walk (PDict c items) sub_ks leaf v = Ok t' ->
  exists x, t' = PDict c (dict_set (first_segment sub_ks leaf) x items).
Proof.
  destruct sub_ks as [| sub_k rest]; cbn [walk first_segment hd]; intros Hw.
  - injection Hw as <-. exists v. reflexivity.
  - destruct (dict_get sub_k items) as [sub |].
    + destruct (walk sub rest leaf v) as [child |]; simpl in Hw; [| discriminate].
      injection Hw as <-. exists child. reflexivity.
    + destruct c; [discriminate |].
      destruct (walk (PDict NestedDict []) rest leaf v) as [child |]; simpl in Hw;
        [| discriminate].
      injection Hw as <-. exists child. reflexivity.
Qed.

(** On the value trees of the model, one key changes one entry of the
    root.  In Python this holds when the tree shares no dictionary or
    list between two places, since the walk changes them in place. *)
Lemma parse_item_top_level (c : dict_class) (items : list (string * pyval))
    (k : string) (v out' : pyval) :
  parse_item (PDict c items) (k, v) = Ok out' ->
  exists items',
    out' = PDict c items' /\
    (forall f, f <> hd "" (path_of k) -> dict_get f items' = dict_get f items) /\
    keys items' = (if existsb (String.eqb (hd "" (path_of k))) (keys items)
                   then keys items
                   else keys items ++ [hd "" (path_of k)]).
Proof.
  intros Hp.
  destruct (parse_item_walk (PDict c items) k v) as (init & last & Hpath & Hwalk).
  rewrite Hwalk in Hp. destruct (walk_top_level _ _ _ _ _ _ Hp) as [x ->].
  assert (Hfirst : hd "" (path_of k) = first_segment init last).
  { rewrite Hpath. destruct init; reflexivity. }
  rewrite Hfirst. set (f0 := first_segment init last).
  exists (dict_set f0 x items). split; [reflexivity |]. split.
  - intros f Hf. rewrite dict_get_set.
    destruct (String.eqb_spec f f0); [contradiction | reflexivity].
  - destruct (existsb (String.eqb f0) (keys items)) eqn:Hex.
    + apply dict_set_keys_old. apply existsb_exists in Hex.
      destruct Hex as (y & Hy & Heq). apply String.eqb_eq in Heq. subst y. exact Hy.
    + rewrite dict_set_new.
      * unfold keys. rewrite map_app. reflexivity.
      * intros Hin. assert (H : existsb (String.eqb f0) (keys items) = true).
        { apply existsb_exists. exists f0. split; [exact Hin | apply String.eqb_refl]. }
        congruence.
Qed.

(** The root keeps its class through the loop. *)
Lemma parse_items_root (kvs : list (string * pyval)) : forall c items out,
  parse_items (PDict c items) kvs = Ok out -> exists items', out = PDict c items'.
Proof.
  induction kvs as [| [k v] kvs IH]; intros c items out Hp.
  - injection Hp as <-. exists items. reflexivity.
  - cbn [parse_items] in Hp.
    destruct (parse_item (PDict c items) (k, v)) as [t |] eqn:Hk; [| discriminate].
    destruct (parse_item_top_level c items k v t Hk) as (items1 & -> & _).
    cbn [bind] in Hp. apply (IH c items1 out Hp).
Qed.

(** X2. While a form is decoded, whose values are all strings, one more
    key touches one entry of the root only.  The tree built from the
    pairs read so far is a [NestedDict]; after the next pair the root is
    a [NestedDict] still, every field but the first segment of the new
    key holds what it held before, the fields already there keep their
    places, and a new field goes last.  (Such a tree shares nothing
    between two places: its dictionaries are the ones the walk created,
    and strings do not change.) *)
Theorem decoding_a_key_keeps_the_other_fields :
  forall (pre : list (string * string)) (k s : string) (out out' : pyval),
    parse_items (PDict NestedDict []) (dict_items (form pre)) = Ok out ->
    parse_item out (k, PStr s) = Ok out' ->
    exists items items',
      out = PDict NestedDict items /\
      out' = PDict NestedDict items' /\
      (forall f, f <> hd "" (path_of k) -> dict_get f items' = dict_get f items) /\
      keys items' = (if existsb (String.eqb (hd "" (path_of k))) (keys items)
                     then keys items
                     else keys items ++ [hd "" (path_of k)]).
Proof.
  intros pre k s out out' Hpre Hk.
  destruct (parse_items_root _ _ _ _ Hpre) as [items ->].
  destruct (parse_item_top_level NestedDict items k (PStr s) out' Hk)
    as (items' & -> & Hget & Hkeys).
  exists items, items'. repeat split; assumption.
Qed.

Lemma decoding_a_key_keeps_the_other_fields_witness :
  exists items items',
    PDict NestedDict [("name", PStr "John")] = PDict NestedDict items /\
    PDict NestedDict [("name", PStr "John"); ("address", PDict NestedDict [("city", PStr "York")])]
    = PDict NestedDict items' /\
    (forall f, f <> hd "" (path_of "root[address][city]") ->
               dict_get f items' = dict_get f items) /\
    keys items' = (if existsb (String.eqb (hd "" (path_of "root[address][city]"))) (keys items)
                   then keys items
                   else keys items ++ [hd "" (path_of "root[address][city]")]).
Proof.
  apply (decoding_a_key_keeps_the_other_fields [("name", "John")]
           "root[address][city]" "York"); reflexivity.
Defined.

Lemma nested_dicts_only_get k items sub :
  forallb (fun kv => nested_dicts_only (snd kv)) items = true ->
  dict_get k items = Some sub -> nested_dicts_only sub = true.
Proof.
  intros Hall Hget. apply dict_get_some_in in Hget.
  rewrite forallb_forall in Hall. apply (Hall (k, sub) Hget).
Qed.

(** *** Forms and data without lists *)

(** One key walked into a tree of [NestedDict]s and strings. *)
Lemma walk_nested_dicts_only sub_ks : forall leaf s t,
  nested_dicts_only t = true ->
  match walk t sub_ks leaf (PStr s) with
  | Ok t' => nested_dicts_only t' = true
  | Raise e => str_error e
  end.
Proof.
  induction sub_ks as [| sub_k rest IH]; intros leaf s t Ht.
  - destruct t as [| z | s0 | xs | [|] items]; try discriminate; cbn [walk].
    + left. reflexivity.
    + cbn [nested_dicts_only] in *. apply dict_set_forallb; [reflexivity | exact Ht].
  - destruct t as [| z | s0 | xs | [|] items]; try discriminate; cbn [walk].
    + right. reflexivity.
    + cbn [nested_dicts_only] in Ht.
      destruct (dict_get sub_k items) as [sub |] eqn:Hget.
      * specialize (IH leaf s sub (nested_dicts_only_get _ _ _ Ht Hget)).
        destruct (walk sub rest leaf (PStr s)) as [child | e]; simpl; [| exact IH].
        apply dict_set_forallb; [exact IH | exact Ht].
      * specialize (IH leaf s (PDict NestedDict []) eq_refl).
        destruct (walk (PDict NestedDict []) rest leaf (PStr s)) as [child | e]; simpl;
          [| exact IH].
        apply dict_set_forallb; [exact IH | exact Ht].
Qed.

Lemma parse_items_nested_dicts_only pairs : forall t,
  nested_dicts_only t = true ->
  match parse_items t (map (fun kv => (fst kv, PStr (snd kv))) pairs) with
  | Ok t' => nested_dicts_only t' = true
  | Raise e => str_error e
  end.
Proof.
  induction pairs as [| [k s] rest IH]; intros t Ht; [exact Ht |].
  cbn [map fst snd parse_items].
  destruct (parse_item_walk t k (PStr s)) as (init & last & _ & Hwalk).
  rewrite Hwalk. pose proof (walk_nested_dicts_only init last s t Ht) as Hw.
  destruct (walk t init last (PStr s)) as [t' | e]; simpl; [| exact Hw].
  apply IH. exact Hw.
Qed.

(** X3. The decoding of a form, whose values are all strings, fails in
    one way only: with the [TypeError] that Python raises when a string
    stands where a dictionary is needed, with one of its two messages.
    It never raises a [ValueError] or a [KeyError]. *)
Theorem form_decoding_fails_only_on_a_string_in_the_way :
  forall (pairs : list (string * string)) (e : exn),
    json_editor_parse (form pairs) = Raise e ->
    e = TypeError "'str' object does not support item assignment" \/
    e = TypeError "string indices must be integers, not 'str'".
Proof.
  intros pairs e. unfold json_editor_parse, form.
  pose proof (parse_items_nested_dicts_only pairs (PDict NestedDict []) eq_refl) as H.
  destruct (parse_items _ _) as [t' | e']; simpl; [discriminate |].
  intros [= <-]. exact H.
Qed.

Lemma form_decoding_fails_only_on_a_string_in_the_way_witness :
  json_editor_parse (form [("root[address]", "foo"); ("root[address][street]", "Main")])
  = Raise (TypeError "'str' object does not support item assignment")
  /\ (TypeError "'str' object does not support item assignment"
      = TypeError "'str' object does not support item assignment" \/
      TypeError "'str' object does not support item assignment"
      = TypeError "string indices must be integers, not 'str'").
Proof.
  split; [reflexivity |].
  apply (form_decoding_fails_only_on_a_string_in_the_way
           [("root[address]", "foo"); ("root[address][street]", "Main")]).
  reflexivity.
Defined.

Lemma no_lists_get k items sub :
  forallb (fun kv => no_lists (snd kv)) items = true ->
  dict_get k items = Some sub -> no_lists sub = true.
Proof.
  intros Hall Hget. apply dict_get_some_in in Hget.
  rewrite forallb_forall in Hall. apply (Hall (k, sub) Hget).
Qed.

Lemma walk_no_lists sub_ks : forall leaf v t t',
  no_lists t = true -> no_lists v = true ->
  walk t sub_ks leaf v = Ok t' -> no_lists t' = true.
Proof.
  induction sub_ks as [| sub_k rest IH]; intros leaf v t t' Ht Hv Hw.
  - destruct t as [| z | s0 | xs | c items]; try discriminate.
    cbn [walk] in Hw. injection Hw as <-. cbn [no_lists] in *.
    apply dict_set_forallb; assumption.
  - destruct t as [| z | s0 | xs | c items]; try discriminate.
    cbn [walk] in Hw. cbn [no_lists] in Ht.
    destruct (dict_get sub_k items) as [sub |] eqn:Hget.
    + destruct (walk sub rest leaf v) as [child |] eqn:Hc; simpl in Hw; [| discriminate].
      injection Hw as <-. cbn [no_lists].
      apply dict_set_forallb; [| exact Ht].
      apply (IH leaf v sub child (no_lists_get _ _ _ Ht Hget) Hv Hc).
    + destruct c; [discriminate |].
      destruct (walk (PDict NestedDict []) rest leaf v) as [child |] eqn:Hc;
        simpl in Hw; [| discriminate].
      injection Hw as <-. cbn [no_lists].
      apply dict_set_forallb; [| exact Ht].
      apply (IH leaf v (PDict NestedDict []) child eq_refl Hv Hc).
Qed.

Lemma parse_items_no_lists items : forall t out,
  no_lists t = true ->
  forallb (fun kv => no_lists (snd kv)) items = true ->
  parse_items t items = Ok out -> no_lists out = true.
Proof.
  induction items as [| [k v] rest IH]; intros t out Ht Hall Hp.
  - injection Hp as <-. exact Ht.
  - cbn [forallb snd] in Hall. apply andb_true_iff in Hall as [Hv Hrest].
    cbn [parse_items] in Hp.
    destruct (parse_item_walk t k v) as (init & last & _ & Hwalk).
    rewrite Hwalk in Hp.
    destruct (walk t init last v) as [t' |] eqn:Hw; simpl in Hp; [| discriminate].
    apply (IH t' out (walk_no_lists init last v t t' Ht Hv Hw) Hrest Hp).
Qed.

(** X4. When no value of the data holds a list, the tree that the loop
    builds from it holds no list.  The statement is for all such data,
    so it holds after every key of the loop as well. *)
Theorem tree_of_data_without_lists_holds_no_list :
  forall (items : list (string * pyval)) (out : pyval),
    forallb (fun kv => no_lists (snd kv)) items = true ->
    parse_items (PDict NestedDict []) items = Ok out ->
    no_lists out = true.
Proof.
  intros items out Hall Hp.
  apply (parse_items_no_lists items (PDict NestedDict []) out eq_refl Hall Hp).
Qed.

Lemma tree_of_data_without_lists_holds_no_list_witness :
  no_lists
    (PDict NestedDict [("age", PInt 30);
                       ("hobbies", PDict NestedDict [("1", PStr "Reading"); ("0", PStr "Walking")])])
  = true.
Proof.
  apply (tree_of_data_without_lists_holds_no_list
           [("age", PInt 30); ("root[hobbies][1]", PStr "Reading");
            ("root[hobbies][0]", PStr "Walking")]);
    reflexivity.
Defined.

Lemma forallb_map {A B} (p : B -> bool) (f : A -> B) xs :
  forallb p (map f xs) = forallb (fun x => p (f x)) xs.
Proof. induction xs as [| x xs IH]; simpl; [reflexivity | rewrite IH; reflexivity]. Qed.

Lemma forallb_values (p : pyval -> bool) (items : list (string * pyval)) :
  forallb (fun kv => p (snd kv)) items = true <-> Forall (fun v => p v = true) (values items).
Proof.
  unfold values. rewrite Forall_map, forallb_forall, Forall_forall. reflexivity.
Qed.

(** The normalizer leaves no [NestedDict] in a value without lists. *)
Lemma normalize_plain (t : pyval) :
  no_lists t = true ->
  plain (indexed_dicts_to_lists t) = true /\ plain (normalized_item t) = true.
Proof.
  induction t as [| z | s | xs IH | c items IH] using pyval_ind; intros Ht;
    try discriminate; try (split; reflexivity).
  cbn [no_lists] in Ht.
  assert (Hitems : Forall (fun kv => plain (indexed_dicts_to_lists (snd kv)) = true /\
                                     plain (normalized_item (snd kv)) = true) items).
  { rewrite forallb_forall in Ht. rewrite Forall_forall in IH |- *.
    intros kv Hin. apply (IH kv Hin). apply (Ht kv Hin). }
  assert (Hlist : plain (PList (map (fun kv => indexed_dicts_to_lists (snd kv)) items)) = true).
  { cbn [plain]. rewrite forallb_map. apply forallb_forall. intros kv Hin.
    rewrite Forall_forall in Hitems. apply (Hitems kv Hin). }
  assert (Hdict : plain (PDict Plain (normalized_items items [])) = true).
  { cbn [plain]. apply forallb_values. unfold normalized_items.
    apply (loop_values normalized_item (fun v => plain v = true)); [| constructor].
    eapply Forall_impl; [| exact Hitems]. intros kv [_ H]. exact H. }
  split.
  - rewrite indexed_dicts_to_lists_dict.
    destruct (negb (is_empty items) && all_keys_digit items); assumption.
  - cbn [normalized_item]. destruct (all_keys_digit items) eqn:Hd; [exact Hlist |].
    rewrite indexed_dicts_to_lists_dict, Hd, andb_false_r. exact Hdict.
Qed.

(** X5. The document decoded from data without lists holds no
    [NestedDict]: every dictionary handed on to the validation of the
    fields is a plain one. *)
Theorem decoded_data_holds_no_NestedDict :
  forall (c : dict_class) (items : list (string * pyval)) (d : pyval),
    forallb (fun kv => no_lists (snd kv)) items = true ->
    json_editor_parse (PDict c items) = Ok d ->
    plain d = true.
Proof.
  intros c items d Hall. unfold json_editor_parse.
  destruct (parse_items (PDict NestedDict []) items) as [out |] eqn:Hp; simpl; [| discriminate].
  intros [= <-]. apply normalize_plain.
  apply (parse_items_no_lists items (PDict NestedDict []) out eq_refl Hall Hp).
Qed.

Lemma decoded_data_holds_no_NestedDict_witness :
  plain (PDict Plain [("age", PInt 30); ("hobbies", PList [PStr "Reading"; PStr "Walking"])])
  = true.
Proof.
  apply (decoded_data_holds_no_NestedDict Plain
           [("age", PInt 30); ("root[hobbies][1]", PStr "Reading");
            ("root[hobbies][0]", PStr "Walking")]);
    reflexivity.
Defined.

(** *** Keys with and without the [root[...]] wrapper *)

Lemma no_close_endswith (s : string) : no_close s = true -> endswith "]" s = false.
Proof.
  unfold endswith. induction s as [| c s IH]; [reflexivity |].
  cbn [no_close]. rewrite andb_true_iff. intros [Hc Hs]. specialize (IH Hs).
  destruct s as [| c' s'].
  - simpl. destruct (Ascii.eqb_spec c "]") as [-> | Hne]; [discriminate |].
    destruct (String.eqb_spec (String c "") "]") as [Heq | _]; [| reflexivity].
    injection Heq as ->. contradiction.
  - cbn [String.length Nat.leb andb] in IH |- *.
    replace (S (String.length s') - 1) with (String.length s') in IH by lia.
    replace (S (S (String.length s')) - 1) with (S (String.length s')) by lia.
    exact IH.
Qed.

Lemma no_close_unstructured (s : string) : no_close s = true -> is_structured s = false.
Proof.
  intros H. unfold is_structured. rewrite (no_close_endswith s H). apply andb_false_r.
Qed.

Lemma wrapped_key (k : string) :
  no_close k = true ->
  is_structured ("root[" ++ k ++ "]") = true /\ segments ("root[" ++ k ++ "]") = [k].
Proof.
  intros Hk. apply (segments_bracket_key [k]); [discriminate |].
  constructor; [exact Hk | constructor].
Qed.

(** X6. The wrapper [root[...]] around a single field name is optional:
    for a name [k] without a closing bracket the keys [root[k]] and [k]
    are decoded alike, on every tree. *)
Theorem root_wrapper_is_optional :
  forall (out : pyval) (k : string) (v : pyval),
    no_close k = true ->
    parse_item out (("root[" ++ k ++ "]")%string, v) = parse_item out (k, v).
Proof.
  intros out k v Hk. destruct (wrapped_key k Hk) as [Hs Hsegs].
  unfold parse_item. rewrite Hs, Hsegs, (no_close_unstructured k Hk). reflexivity.
Qed.

Lemma root_wrapper_is_optional_witness :
  no_close "name" = true /\
  parse_item (PDict NestedDict []) (("root[" ++ "name" ++ "]")%string, PStr "John")
  = parse_item (PDict NestedDict []) ("name", PStr "John").
Proof.
  split; [reflexivity |].
  apply (root_wrapper_is_optional (PDict NestedDict []) "name" (PStr "John")).
  reflexivity.
Defined.

(** *** Indices into a list that is already there *)

Lemma all_digits_no_close (s : string) : all_digits s = true -> no_close s = true.
Proof.
  induction s as [| c s IH]; [reflexivity |].
  cbn [all_digits no_close]. rewrite !andb_true_iff. intros [Hc Hs].
  split; [| exact (IH Hs)].
  destruct (Ascii.eqb_spec c "]") as [-> | _]; [discriminate | reflexivity].
Qed.

Lemma isdigit_no_close (s : string) : isdigit s = true -> no_close s = true.
Proof. destruct s; [discriminate |]. apply all_digits_no_close. Qed.

Lemma indexed_key (f i : string) :
  no_close f = true -> no_close i = true ->
  is_structured ("root[" ++ f ++ "][" ++ i ++ "]") = true /\
  segments ("root[" ++ f ++ "][" ++ i ++ "]") = [f; i].
Proof.
  intros Hf Hi.
  assert (Hkey : ("root[" ++ f ++ "][" ++ i ++ "]")%string = bracket_key [f; i]).
  { unfold bracket_key. cbn [String.concat]. rewrite !append_assoc. reflexivity. }
  rewrite Hkey. apply segments_bracket_key; [discriminate |].
  repeat constructor; assumption.
Qed.

Lemma parse_item_indexed out f i v :
  no_close f = true -> no_close i = true ->
  parse_item out (("root[" ++ f ++ "][" ++ i ++ "]")%string, v) = walk out [f] i v.
Proof.
  intros Hf Hi. destruct (indexed_key f i Hf Hi) as [Hs Hsegs].
  unfold parse_item. rewrite Hs, Hsegs. reflexivity.
Qed.

(** X7. An index into a list that is already in the tree is honoured:
    with a list [xs] under the field [f], the key [root[f][i]] stores [v]
    at position [int(i)].  The list is first padded with the empty value
    of [v]'s type up to that position, so the assignment is always in
    range, and the elements of [xs] at other positions stay. *)
Theorem index_into_existing_list :
  forall (c : dict_class) (items : list (string * pyval)) (f i : string)
         (xs : list pyval) (v : pyval),
    no_close f = true ->
    isdigit i = true ->
    dict_get f items = Some (PList xs) ->
    exists ys,
      parse_item (PDict c items) (("root[" ++ f ++ "][" ++ i ++ "]")%string, v)
      = Ok (PDict c (dict_set f (PList ys) items)) /\
      length ys = Nat.max (length xs) (S (int i)) /\
      nth_error ys (int i) = Some v /\
      (forall j, j < length xs -> j <> int i -> nth_error ys j = nth_error xs j) /\
      (forall j, length xs <= j -> j < int i -> nth_error ys j = Some (type_call v)).
Proof.
  intros c items f i xs v Hf Hi Hget.
  exists (list_set (int i) v (pad (int i) (type_call v) xs)).
  split; [| split; [| split; [| split]]].
  - rewrite (parse_item_indexed _ f i v Hf (isdigit_no_close i Hi)).
    cbn [walk]. rewrite Hget. cbn [walk]. rewrite Hi. reflexivity.
  - rewrite list_set_length, pad_length. lia.
  - apply list_set_pad_same.
  - intros j Hj Hne. rewrite list_set_nth_error.
    destruct (Nat.eqb_spec j (int i)) as [-> | _]; [contradiction |].
    apply pad_nth_error_old. exact Hj.
  - intros j Hlo Hhi. rewrite list_set_nth_error.
    destruct (Nat.eqb_spec j (int i)) as [-> | _]; [lia |].
    apply pad_nth_error_new; lia.
Qed.

Lemma index_into_existing_list_witness :
  exists ys,
    parse_item (PDict NestedDict [("hobbies", PList [PStr "Walking"])])
               (("root[" ++ "hobbies" ++ "][" ++ "2" ++ "]")%string, PStr "Jogging")
    = Ok (PDict NestedDict (dict_set "hobbies" (PList ys) [("hobbies", PList [PStr "Walking"])])) /\
    length ys = Nat.max (length [PStr "Walking"]) (S (int "2")) /\
    nth_error ys (int "2") = Some (PStr "Jogging") /\
    (forall j, j < length [PStr "Walking"] -> j <> int "2" ->
               nth_error ys j = nth_error [PStr "Walking"] j) /\
    (forall j, length [PStr "Walking"] <= j -> j < int "2" ->
               nth_error ys j = Some (type_call (PStr "Jogging"))).
Proof.
  apply (index_into_existing_list NestedDict [("hobbies", PList [PStr "Walking"])]
           "hobbies" "2" [PStr "Walking"] (PStr "Jogging")); reflexivity.
Defined.

(** X8. An ASCII segment that is no number, addressed to a list, is
    reported and not thrown: with a list under the field [f], the key
    [root[f][seg]] makes the decoder raise [ValueError("List index must
    be a number")], which [model_validate] turns into a single
    [value_error] report at the root. *)
Theorem field_name_into_a_list_is_a_value_error :
  forall (datetime : Type) (to_datetime : pyval -> option datetime)
         (c : dict_class) (f seg : string) (xs : list pyval) (v : pyval),
    no_close f = true ->
    no_close seg = true ->
    is_ascii seg = true ->
    isdigit seg = false ->
    json_editor_parse (PDict c [(f, PList xs); (("root[" ++ f ++ "][" ++ seg ++ "]")%string, v)])
    = Raise (ValueError "List index must be a number") /\
    model_validate datetime to_datetime
      (PDict c [(f, PList xs); (("root[" ++ f ++ "][" ++ seg ++ "]")%string, v)])
    = ValidationError [error_at value_error []].
Proof.
  intros datetime to_datetime c f seg xs v Hf Hseg _ Hd.
  assert (H : json_editor_parse (PDict c [(f, PList xs); (("root[" ++ f ++ "][" ++ seg ++ "]")%string, v)])
              = Raise (ValueError "List index must be a number")).
  { unfold json_editor_parse. cbn [parse_items].
    rewrite (parse_item_flat NestedDict [] f (PList xs) (no_close_unstructured f Hf)).
    cbn [bind dict_set].
    rewrite (parse_item_indexed _ f seg v Hf Hseg).
    cbn [walk dict_get]. rewrite String.eqb_refl. cbn [walk]. rewrite Hd. reflexivity. }
  split; [exact H |]. unfold model_validate. rewrite H. reflexivity.
Qed.

Lemma field_name_into_a_list_is_a_value_error_witness :
  json_editor_parse
    (PDict Plain [("hobbies", PList []); (("root[" ++ "hobbies" ++ "][" ++ "first" ++ "]")%string, PStr "x")])
  = Raise (ValueError "List index must be a number") /\
  model_validate unit (fun _ => None)
    (PDict Plain [("hobbies", PList []); (("root[" ++ "hobbies" ++ "][" ++ "first" ++ "]")%string, PStr "x")])
  = ValidationError [error_at value_error []].
Proof.
  apply (field_name_into_a_list_is_a_value_error unit (fun _ => None) Plain
           "hobbies" "first" [] (PStr "x")); reflexivity.
Defined.

(** *** Index segments below a field of a form *)

(** The walks of the elements of one field, each with its own index
    text. *)
Lemma walk_all_distinct_indices ivs : forall acc,
  NoDup (keys acc ++ map fst ivs) ->
  walk_all (PDict NestedDict acc) (map (fun iv => ([fst iv], snd iv)) ivs)
  = Ok (PDict NestedDict (acc ++ map (fun iv => (fst iv, PStr (snd iv))) ivs)).
Proof.
  induction ivs as [| [i s] ivs IH]; intros acc Hnd.
  - simpl. rewrite app_nil_r. reflexivity.
  - cbn [map fst snd walk_all unpack_last walk bind].
    assert (Hfresh : ~ In i (keys acc)).
    { intros Hin. apply NoDup_remove_2 in Hnd. apply Hnd.
      apply in_or_app. left. exact Hin. }
    rewrite (dict_set_new i (PStr s) acc Hfresh), IH.
    + rewrite <- app_assoc. reflexivity.
    + unfold keys. rewrite map_app. cbn [map fst]. rewrite <- app_assoc. exact Hnd.
Qed.

Lemma indexed_keys_to_flat f ivs :
  no_close f = true ->
  Forall (fun iv => isdigit (fst iv) = true) ivs ->
  parse_items (PDict NestedDict [])
    (map (fun iv => (("root[" ++ f ++ "][" ++ fst iv ++ "]")%string, PStr (snd iv))) ivs)
  = walk_all (PDict NestedDict []) (map (below f) (map (fun iv => ([fst iv], snd iv)) ivs)).
Proof.
  intros Hf Hall. generalize (PDict NestedDict []).
  induction Hall as [| [i s] ivs Hi _ IH]; intros t; [reflexivity |].
  cbn [map fst snd parse_items walk_all below].
  rewrite (parse_item_indexed t f i (PStr s) Hf (isdigit_no_close i Hi)).
  cbn [unpack_last].
  destruct (walk t [f] i (PStr s)) as [t' | e]; simpl; [apply IH | reflexivity].
Qed.

(** X9. In data that holds nothing but keys [root[f][i]] with string
    values, so that no list is stored under [f] beforehand, the elements
    follow the order of the pairs, whatever their index texts are: for an
    ASCII field name [f] that is no number and distinct index texts, the
    decoded list under [f] holds the values in the order of the pairs,
    one element per pair, without padding. *)
Theorem elements_follow_submission_order :
  forall (f : string) (ivs : list (string * string)),
    no_close f = true ->
    is_ascii f = true ->
    isdigit f = false ->
    ivs <> [] ->
    Forall (fun iv => isdigit (fst iv) = true) ivs ->
    NoDup (map fst ivs) ->
    json_editor_parse
      (form (map (fun iv => (("root[" ++ f ++ "][" ++ fst iv ++ "]")%string, snd iv)) ivs))
    = Ok (PDict Plain [(f, PList (map (fun iv => PStr (snd iv)) ivs))]).
Proof.
  intros f ivs Hf _ Hfd Hne Hall Hnd.
  unfold json_editor_parse, form. rewrite map_map. cbn [fst snd].
  rewrite (indexed_keys_to_flat f ivs Hf Hall).
  rewrite (walk_all_below_new [] f _
             (PDict NestedDict (map (fun iv => (fst iv, PStr (snd iv))) ivs))).
  - cbn [bind]. change ([] ++ [(f, ?x)]) with [(f, x)].
    rewrite indexed_dicts_to_lists_dict.
    unfold all_keys_digit at 1. cbn [is_empty negb keys map fst forallb andb].
    rewrite Hfd. cbn [andb normalized_items fold_left fst snd dict_set normalized_item].
    assert (Hdigits : all_keys_digit (map (fun iv => (fst iv, PStr (snd iv))) ivs) = true).
    { unfold all_keys_digit, keys. rewrite map_map. cbn [fst].
      apply forallb_forall. intros i Hi. apply in_map_iff in Hi.
      destruct Hi as (iv & <- & Hin). rewrite Forall_forall in Hall. apply (Hall iv Hin). }
    rewrite Hdigits. rewrite map_map. reflexivity.
  - intros [].
  - destruct ivs; [contradiction | discriminate].
  - apply Forall_forall. intros ps Hin. apply in_map_iff in Hin.
    destruct Hin as (iv & <- & _). discriminate.
  - apply (walk_all_distinct_indices ivs []). exact Hnd.
Qed.

Lemma elements_follow_submission_order_witness :
  json_editor_parse
    (form (map (fun iv => (("root[" ++ "hobbies" ++ "][" ++ fst iv ++ "]")%string, snd iv))
               [("7", "Reading"); ("0", "Walking"); ("00", "Jogging")]))
  = Ok (PDict Plain [("hobbies", PList (map (fun iv => PStr (snd iv))
                                            [("7", "Reading"); ("0", "Walking"); ("00", "Jogging")]))]).
Proof.
  apply (elements_follow_submission_order "hobbies"
           [("7", "Reading"); ("0", "Walking"); ("00", "Jogging")]).
  - reflexivity.
  - reflexivity.
  - reflexivity.
  - discriminate.
  - repeat constructor.
  - repeat constructor; simpl; intuition discriminate.
Defined.

(** *** Forms without structured keys *)

Lemma parse_items_flat pairs : forall acc,
  forallb (fun kv => negb (is_structured (fst kv))) pairs = true ->
  NoDup (keys acc ++ keys pairs) ->
  parse_items (PDict NestedDict acc) (map (fun kv => (fst kv, PStr (snd kv))) pairs)
  = Ok (PDict NestedDict (acc ++ map (fun kv => (fst kv, PStr (snd kv))) pairs)).
Proof.
  induction pairs as [| [k s] pairs IH]; intros acc Hflat Hnd.
  - simpl. rewrite app_nil_r. reflexivity.
  - cbn [forallb fst] in Hflat. apply andb_true_iff in Hflat as [Hk Hrest].
    apply negb_true_iff in Hk.
    cbn [map fst snd parse_items]. rewrite (parse_item_flat NestedDict acc k (PStr s) Hk).
    cbn [bind].
    assert (Hfresh : ~ In k (keys acc)).
    { intros Hin. cbn [keys map fst] in Hnd. apply NoDup_remove_2 in Hnd. apply Hnd.
      apply in_or_app. left. exact Hin. }
    rewrite (dict_set_new k (PStr s) acc Hfresh), IH.
    + rewrite <- app_assoc. reflexivity.
    + exact Hrest.
    + unfold keys in *. rewrite map_app. cbn [map fst] in *. rewrite <- app_assoc. exact Hnd.
Qed.

(** X10. A mapping of string values without structured keys is left as
    it is: when the keys are ASCII texts, none has the shape [root[...]],
    they are distinct and, unless there is none, not all of them are
    numbers, the decoded document is the mapping itself. *)
Theorem flat_form_is_left_as_it_is :
  forall pairs : list (string * string),
    forallb is_ascii (keys pairs) = true ->
    forallb (fun kv => negb (is_structured (fst kv))) pairs = true ->
    NoDup (keys pairs) ->
    negb (is_empty pairs) && forallb isdigit (keys pairs) = false ->
    json_editor_parse (form pairs) = Ok (form pairs).
Proof.
  intros pairs _ Hflat Hnd Hguard. unfold json_editor_parse, form.
  rewrite (parse_items_flat pairs [] Hflat Hnd). cbn [bind]. rewrite app_nil_l.
  rewrite indexed_dicts_to_lists_dict.
  assert (Hg : negb (is_empty (map (fun kv => (fst kv, PStr (snd kv))) pairs)) &&
               all_keys_digit (map (fun kv => (fst kv, PStr (snd kv))) pairs) = false).
  { unfold all_keys_digit, keys in *. rewrite map_map. cbn [fst].
    destruct pairs; [reflexivity | exact Hguard]. }
  rewrite Hg. f_equal. f_equal. unfold normalized_items.
  rewrite loop_fresh.
  - cbn [app]. rewrite map_map. apply map_ext. intros [k s]. reflexivity.
  - unfold keys in *. rewrite map_map. cbn [fst]. exact Hnd.
  - intros k _ [].
Qed.

Lemma flat_form_is_left_as_it_is_witness :
  json_editor_parse (form [("name", "John Doe"); ("age", "30")])
  = Ok (form [("name", "John Doe"); ("age", "30")]).
Proof.
  apply (flat_form_is_left_as_it_is [("name", "John Doe"); ("age", "30")]).
  - reflexivity.
  - reflexivity.
  - repeat constructor; simpl; intuition discriminate.
  - reflexivity.
Defined.

(** * Further properties of the normalizer and of the schema *)

(** X11. The normalizer keeps the keys of a dictionary that does not
    become a list: when all keys, at every depth, are ASCII texts, the
    keys of the dictionary are distinct (as every Python dictionary has
    them) and, unless there is none, not all of them numbers, the result
    is a plain dictionary with the same keys in the same order, each
    value treated by the loop on its own. *)
Theorem normalizer_keeps_the_keys :
  forall (c : dict_class) (items : list (string * pyval)),
    ascii_keys (PDict c items) = true ->
    NoDup (keys items) ->
    negb (is_empty items) && all_keys_digit items = false ->
    indexed_dicts_to_lists (PDict c items)
    = PDict Plain (map (fun kv => (fst kv, normalized_item (snd kv))) items) /\
    keys (map (fun kv => (fst kv, normalized_item (snd kv))) items) = keys items.
Proof.
  intros c items _ Hnd Hguard. split.
  - rewrite indexed_dicts_to_lists_dict, Hguard. f_equal.
    unfold normalized_items. rewrite loop_fresh; [reflexivity | exact Hnd |].
    intros k _ [].
  - unfold keys. rewrite map_map. reflexivity.
Qed.

Lemma normalizer_keeps_the_keys_witness :
  indexed_dicts_to_lists
    (PDict NestedDict [("name", PStr "John"); ("hobbies", PDict NestedDict [("0", PStr "Chess")])])
  = PDict Plain
      (map (fun kv => (fst kv, normalized_item (snd kv)))
           [("name", PStr "John"); ("hobbies", PDict NestedDict [("0", PStr "Chess")])]) /\
  keys (map (fun kv => (fst kv, normalized_item (snd kv)))
            [("name", PStr "John"); ("hobbies", PDict NestedDict [("0", PStr "Chess")])])
  = keys [("name", PStr "John"); ("hobbies", PDict NestedDict [("0", PStr "Chess")])].
Proof.
  apply (normalizer_keeps_the_keys NestedDict
           [("name", PStr "John"); ("hobbies", PDict NestedDict [("0", PStr "Chess")])]).
  - reflexivity.
  - repeat constructor; simpl; intuition discriminate.
  - reflexivity.
Defined.

(** *** The document of a person *)

Section DumpRoundTrip.

Variable datetime : Type.
Variable to_datetime : pyval -> option datetime.
Variable isoformat : datetime -> string.

Lemma normalized_dumped_contacts (cs : list (Contact datetime)) :
  map indexed_dicts_to_lists (map (Contact_dump datetime isoformat) cs)
  = map (Contact_dump datetime isoformat) cs.
Proof.
  rewrite map_map. apply map_ext. intros [n | n d | n r]; reflexivity.
Qed.

Lemma normalized_dumped_strs (hs : list string) :
  map indexed_dicts_to_lists (map PStr hs) = map PStr hs.
Proof. rewrite map_map. apply map_ext. reflexivity. Qed.

Lemma normalize_six_fields (c : dict_class) (n a j DA DH DC : pyval) :
  indexed_dicts_to_lists
    (PDict c [("name", n); ("age", a); ("job", j);
              ("address", DA); ("hobbies", DH); ("contacts", DC)])
  = PDict Plain
      [("name", normalized_item n); ("age", normalized_item a); ("job", normalized_item j);
       ("address", normalized_item DA); ("hobbies", normalized_item DH);
       ("contacts", normalized_item DC)].
Proof. reflexivity. Qed.

(** The decoder leaves the document of a person as it is. *)
Lemma json_editor_parse_model_dump (p : Person datetime) :
  json_editor_parse (model_dump datetime isoformat p) = Ok (model_dump datetime isoformat p).
Proof.
  unfold model_dump, json_editor_parse.
  change (parse_items (PDict NestedDict []) ?items) with (Ok (PDict NestedDict items)).
  cbn [bind].
  rewrite normalize_six_fields.
  cbn [normalized_item].
  rewrite normalized_dumped_strs, normalized_dumped_contacts.
  destruct (address datetime p) as [a |]; reflexivity.
Qed.

End DumpRoundTrip.

(** X12. The document of a person is read back as a value: the decoder
    returns the document of [model_dump(mode="json")], a dictionary of
    Python values and no JSON text, unchanged, and [model_validate] of it
    gives the person again.  The texts of the dates are assumed to be
    read back by the library, and the age is not negative. *)
Theorem person_document_is_read_back :
  forall (datetime : Type) (to_datetime : pyval -> option datetime)
         (isoformat : datetime -> string) (p : Person datetime),
    (forall d, to_datetime (PStr (isoformat d)) = Some d) ->
    (0 <= age datetime p)%Z ->
    json_editor_parse (model_dump datetime isoformat p) = Ok (model_dump datetime isoformat p) /\
    model_validate datetime to_datetime (model_dump datetime isoformat p) = Validated p.
Proof.
  intros datetime to_datetime isoformat p Hiso Hage.
  split; [apply json_editor_parse_model_dump |].
  unfold model_validate. rewrite json_editor_parse_model_dump.
  destruct p as [n a j addr hs cs]. cbn [age] in Hage.
  unfold model_dump.
  cbn [name age job address hobbies contacts validate_model].
  unfold Person_fields, required, defaulted. cbn [dict_get String.eqb Ascii.eqb Bool.eqb].
  cbn [validate_str under vmap and_field validate_list].
  rewrite validate_strs, (validate_contacts datetime to_datetime isoformat Hiso).
  unfold validate_non_negative_int. cbn [validate_int].
  apply Z.leb_le in Hage. rewrite Hage.
  destruct addr as [[hn st ci] |]; reflexivity.
Qed.

Lemma person_document_is_read_back_witness :
  json_editor_parse
    (model_dump unit (fun _ => "2024-11-04T10:00:00Z")
       {| name := "John Doe"; age := 30; job := "UX";
          address := Some {| house_number := 123; street := "Main St"; city := "New York" |};
          hobbies := ["Walking"; "Reading"];
          contacts := [Friend "Alice" tt; FamilyMember "Bob" "Father"] |})
  = Ok (model_dump unit (fun _ => "2024-11-04T10:00:00Z")
       {| name := "John Doe"; age := 30; job := "UX";
          address := Some {| house_number := 123; street := "Main St"; city := "New York" |};
          hobbies := ["Walking"; "Reading"];
          contacts := [Friend "Alice" tt; FamilyMember "Bob" "Father"] |}) /\
  model_validate unit (fun _ => Some tt)
    (model_dump unit (fun _ => "2024-11-04T10:00:00Z")
       {| name := "John Doe"; age := 30; job := "UX";
          address := Some {| house_number := 123; street := "Main St"; city := "New York" |};
          hobbies := ["Walking"; "Reading"];
          contacts := [Friend "Alice" tt; FamilyMember "Bob" "Father"] |})
  = Validated
       {| name := "John Doe"; age := 30; job := "UX";
          address := Some {| house_number := 123; street := "Main St"; city := "New York" |};
          hobbies := ["Walking"; "Reading"];
          contacts := [Friend "Alice" tt; FamilyMember "Bob" "Father"] |}.
Proof.
  apply person_document_is_read_back.
  - intros []. reflexivity.
  - simpl. lia.
Defined.

(** *** The classes of the union *)

(** X13. [Contact.get_subclasses] obeys the recursion of the generator
    for every class and both values of [include_self]: the class itself
    when asked for, then the enumerations of its direct subclasses, each
    with itself included.  Started at [Contact] it yields every class
    exactly once. *)
Theorem get_subclasses_enumerates_the_classes :
  (forall (cls : contact_class) (include_self : bool),
      get_subclasses cls include_self
      = (if include_self then [cls] else [])
          ++ flat_map (fun sub => get_subclasses sub true) (direct_subclasses cls)) /\
  NoDup (get_subclasses ContactCls true) /\
  (forall cls : contact_class, In cls (get_subclasses ContactCls true)).
Proof.
  split; [| split].
  - intros [] []; reflexivity.
  - repeat constructor; simpl; intuition discriminate.
  - intros []; simpl; auto.
Qed.

Lemma tag_is_class_name (tag : string) (cls : contact_class) :
  dict_get tag (get_annotated_subclass_types ContactCls true) = Some cls ->
  tag = class_name cls.
Proof.
  cbn.
  destruct (String.eqb_spec tag "Contact") as [-> | _]; [intros [= <-]; reflexivity |].
  destruct (String.eqb_spec tag "Friend") as [-> | _]; [intros [= <-]; reflexivity |].
  destruct (String.eqb_spec tag "FamilyMember") as [-> | _]; [intros [= <-]; reflexivity |].
  discriminate.
Qed.

(** X14. The tags of the union name their classes one to one: every
    class is found under its own name among the annotated types of
    [Contact], a tag that finds a class is the name of that class, and
    the discriminator of the document of a contact is the name of the
    contact's class. *)
Theorem union_tags_name_their_classes :
  forall (datetime : Type) (isoformat : datetime -> string),
    (forall cls : contact_class,
        dict_get (class_name cls) (get_annotated_subclass_types ContactCls true) = Some cls) /\
    (forall (tag : string) (cls : contact_class),
        dict_get tag (get_annotated_subclass_types ContactCls true) = Some cls ->
        tag = class_name cls) /\
    (forall c : Contact datetime,
        get_discriminator_value (Contact_dump datetime isoformat c)
        = PStr (class_name (class_of datetime c))).
Proof.
  intros datetime isoformat. split; [| split].
  - intros []; reflexivity.
  - apply tag_is_class_name.
  - intros []; reflexivity.
Qed.

Lemma union_tags_name_their_classes_witness :
  dict_get "Friend" (get_annotated_subclass_types ContactCls true) = Some FriendCls /\
  "Friend" = class_name FriendCls.
Proof.
  split; [reflexivity |].
  apply (proj1 (proj2 (union_tags_name_their_classes unit (fun _ => ""))) "Friend" FriendCls).
  reflexivity.
Defined.

(** X15. A value whose [_type] is not the name of one of the three
    classes is refused for its tag alone: unless the discriminator of the
    value is such a name, the validation of a contact reports exactly one
    error, [union_tag_not_found] or [union_tag_invalid], and none about
    a field. *)
Theorem contact_without_a_class_name_is_refused :
  forall (datetime : Type) (to_datetime : pyval -> option datetime) (v : pyval),
    (exists cls, get_discriminator_value v = PStr (class_name cls)) \/
    validate_contact datetime to_datetime v = Invalid [error_at union_tag_not_found []] \/
    validate_contact datetime to_datetime v = Invalid [error_at union_tag_invalid []].
Proof.
  intros datetime to_datetime v. unfold validate_contact.
  destruct (get_discriminator_value v) as [| z | tag | xs | c items];
    try (right; right; reflexivity); [right; left; reflexivity |].
  destruct (dict_get tag (get_annotated_subclass_types ContactCls true)) as [cls |] eqn:Hget.
  - left. exists cls. f_equal.
    apply (tag_is_class_name tag cls Hget).
  - right. right. reflexivity.
Qed.

(** *** The defaults of [Person] *)

(** X16. The name and the age are all a form has to hold.  When the text
    of the age reads as the integer [z], the form validates if and only
    if [z] is not negative; the person then has the job [Developer], no
    address, no hobbies and no contacts.  A negative age is reported
    as the single error [greater_than_equal] at [age]. *)
Theorem name_and_age_suffice :
  forall (datetime : Type) (to_datetime : pyval -> option datetime)
         (n a : string) (z : Z),
    int_from_str a = Some z ->
    model_validate datetime to_datetime (form [("name", n); ("age", a)])
    = if (0 <=? z)%Z
      then Validated {| name := n; age := z; job := "Developer"; address := None;
                        hobbies := []; contacts := [] |}
      else ValidationError [error_at greater_than_equal [LocField "age"]].
Proof.
  intros datetime to_datetime n a z Ha.
  unfold model_validate.
  change (json_editor_parse (form [("name", n); ("age", a)]))
    with (Ok (PDict Plain [("name", PStr n); ("age", PStr a)])).
  cbn [validate_model]. unfold Person_fields, required, defaulted.
  cbn [dict_get String.eqb Ascii.eqb Bool.eqb].
  unfold validate_non_negative_int. cbn [validate_int validate_str]. rewrite Ha.
  destruct (0 <=? z)%Z; reflexivity.
Qed.

Lemma name_and_age_suffice_witness :
  model_validate unit (fun _ => None) (form [("name", "John Doe"); ("age", "30")])
  = if (0 <=? 30)%Z
    then Validated {| name := "John Doe"; age := 30; job := "Developer"; address := None;
                      hobbies := []; contacts := [] |}
    else ValidationError [error_at greater_than_equal [LocField "age"]].
Proof.
  apply (name_and_age_suffice unit (fun _ => None) "John Doe" "30" 30%Z).
  reflexivity.
Defined.

(** * The decoder and its earlier versions *)

(** On a tree without lists the walk of the last version is the walk of
    [2_nested_model]. *)
Lemma walk_without_lists sub_ks : forall leaf v t,
  no_lists t = true ->
  walk t sub_ks leaf v = NestedModel.walk t sub_ks leaf v.
Proof.
  induction sub_ks as [| sub_k rest IH]; intros leaf v t Ht.
  - destruct t; try discriminate; reflexivity.
  - destruct t as [| z | s0 | xs | c items]; try discriminate; try reflexivity.
    cbn [walk NestedModel.walk]. cbn [no_lists] in Ht.
    destruct (dict_get sub_k items) as [sub |] eqn:Hget.
    + rewrite (IH leaf v sub (no_lists_get _ _ _ Ht Hget)). reflexivity.
    + destruct c; [reflexivity |]. rewrite (IH leaf v (PDict NestedDict []) eq_refl).
      reflexivity.
Qed.

Lemma parse_items_without_lists items : forall t,
  no_lists t = true ->
  forallb (fun kv => no_lists (snd kv)) items = true ->
  parse_items t items = NestedModel.parse_items t items.
Proof.
  induction items as [| [k v] rest IH]; intros t Ht Hall; [reflexivity |].
  cbn [forallb snd] in Hall. apply andb_true_iff in Hall as [Hv Hrest].
  cbn [parse_items NestedModel.parse_items].
  assert (Hitem : parse_item t (k, v) = NestedModel.parse_item t (k, v)).
  { unfold parse_item, NestedModel.parse_item.
    destruct (is_structured k); [| apply walk_without_lists; exact Ht].
    destruct (unpack_last (segments k)) as [[sub_ks leaf] |]; [| reflexivity].
    apply walk_without_lists. exact Ht. }
  rewrite <- Hitem.
  destruct (parse_item_walk t k v) as (init & last & _ & Hwalk).
  rewrite Hwalk.
  destruct (walk t init last v) as [t' |] eqn:Hw; [| reflexivity].
  cbn [bind]. apply IH; [| exact Hrest].
  apply (walk_no_lists init last v t t' Ht Hv Hw).
Qed.

(** X17. The last version of the decoder extends that of
    [2_nested_model]: on data none of whose values holds a list, every
    form among them, it raises what the earlier decoder raises, and
    returns what the earlier decoder returns, passed through
    [indexed_dicts_to_lists]. *)
Theorem decoder_extends_nested_model :
  forall (c : dict_class) (items : list (string * pyval)),
    forallb (fun kv => no_lists (snd kv)) items = true ->
    json_editor_parse (PDict c items)
    = (out <- NestedModel.json_editor_parse (PDict c items) ;;
       Ok (indexed_dicts_to_lists out)).
Proof.
  intros c items Hall. unfold json_editor_parse, NestedModel.json_editor_parse.
  rewrite (parse_items_without_lists items (PDict NestedDict []) eq_refl Hall).
  reflexivity.
Qed.

Lemma decoder_extends_nested_model_witness :
  json_editor_parse
    (PDict Plain [("name", PStr "John"); ("root[address][city]", PStr "York")])
  = (out <- NestedModel.json_editor_parse
              (PDict Plain [("name", PStr "John"); ("root[address][city]", PStr "York")]) ;;
     Ok (indexed_dicts_to_lists out)).
Proof.
  apply (decoder_extends_nested_model Plain
           [("name", PStr "John"); ("root[address][city]", PStr "York")]).
  reflexivity.
Defined.

(** A text without the separator is the only piece of its split. *)
Lemma split_go_single sep (s : string) : forall cur x : string,
  split_go sep 0 cur s = [x] -> x = (cur ++ s)%string.
Proof.
  induction s as [| ch s IH]; intros cur x.
  - cbn [split_go]. intros [= <-]. symmetry. apply append_nil_r.
  - cbn [split_go]. destruct (String.prefix sep (String ch s)).
    + intros H. injection H as _ Hnil. exfalso. exact (split_go_not_nil _ _ _ _ Hnil).
    + intros H. rewrite (IH _ _ H), append_assoc. reflexivity.
Qed.

(** A key of one segment is stored under that segment, which is the key
    without its wrapper. *)
Lemma parse_item_single_level c acc k v :
  length (path_of k) = 1 ->
  parse_item (PDict c acc) (k, v)
  = Ok (PDict c (dict_set (if is_structured k
                           then removesuffix "]" (removeprefix "root[" k)
                           else k) v acc)).
Proof.
  unfold path_of, parse_item. destruct (is_structured k); [| reflexivity].
  intros Hlen. destruct (segments k) as [| x [| y rest]] eqn:Hsegs; try discriminate.
  unfold segments, split in Hsegs. apply split_go_single in Hsegs.
  cbn [unpack_last walk]. rewrite Hsegs. reflexivity.
Qed.

(** The loop of [1_form_submission] and what it keeps. *)
Lemma stripped_loop_keys_nodup (items : list (string * pyval)) : forall acc,
  NoDup (keys acc) ->
  NoDup (keys (fold_left
                 (fun out kv =>
                    dict_set (if is_structured (fst kv)
                              then removesuffix "]" (removeprefix "root[" (fst kv))
                              else fst kv)
                             (snd kv) out)
                 items acc)).
Proof.
  induction items as [| kv items IH]; intros acc Hnd; [exact Hnd |].
  cbn [fold_left]. apply IH. apply dict_set_keys_nodup. exact Hnd.
Qed.

Lemma stripped_loop_values (Q : pyval -> Prop) (items : list (string * pyval)) : forall acc,
  Forall Q (values items) -> Forall Q (values acc) ->
  Forall Q (values (fold_left
                      (fun out kv =>
                         dict_set (if is_structured (fst kv)
                                   then removesuffix "]" (removeprefix "root[" (fst kv))
                                   else fst kv)
                                  (snd kv) out)
                      items acc)).
Proof.
  induction items as [| kv items IH]; intros acc Hitems Hacc; [exact Hacc |].
  inversion Hitems as [| ? ? Hv Hrest]; subst.
  cbn [fold_left]. apply IH; [exact Hrest |]. apply dict_set_values; assumption.
Qed.

Lemma parse_items_single_level (items : list (string * pyval)) : forall c acc,
  Forall (fun kv => length (path_of (fst kv)) = 1) items ->
  parse_items (PDict c acc) items
  = Ok (PDict c (fold_left
                   (fun out kv =>
                      dict_set (if is_structured (fst kv)
                                then removesuffix "]" (removeprefix "root[" (fst kv))
                                else fst kv)
                               (snd kv) out)
                   items acc)).
Proof.
  induction items as [| [k v] items IH]; intros c acc Hall; [reflexivity |].
  inversion Hall as [| ? ? Hk Hrest]; subst. cbn [fst] in Hk.
  cbn [parse_items fold_left fst snd].
  rewrite (parse_item_single_level c acc k v Hk). cbn [bind]. apply IH. exact Hrest.
Qed.

(** Distinct keys with strings under them are left alone by the loop of
    the normalizer. *)
Lemma normalized_items_strings (items : list (string * pyval)) :
  NoDup (keys items) ->
  Forall (fun v => exists s, v = PStr s) (values items) ->
  normalized_items items [] = items.
Proof.
  intros Hnd Hstr. unfold normalized_items.
  rewrite loop_fresh; [| exact Hnd | intros k _ []].
  rewrite app_nil_l. unfold values in Hstr. rewrite Forall_map in Hstr.
  clear Hnd. induction Hstr as [| [k v] items [s Hs] _ IH]; [reflexivity |].
  cbn [map fst snd] in *. subst v. rewrite IH. reflexivity.
Qed.

(** X18. The last version of the decoder agrees with that of
    [1_form_submission] on mappings of string values without nesting:
    when the keys are ASCII texts, every key addresses a single segment,
    and the earlier result is empty or has a key that is no number, the
    last version returns the dictionary that the earlier version
    returns. *)
Theorem decoder_agrees_with_form_submission :
  forall pairs : list (string * string),
    forallb is_ascii (keys pairs) = true ->
    Forall (fun kv => length (path_of (fst kv)) = 1) pairs ->
    negb (is_empty (dict_items (FormSubmission.json_editor_parse (form pairs)))) &&
    all_keys_digit (dict_items (FormSubmission.json_editor_parse (form pairs))) = false ->
    json_editor_parse (form pairs) = Ok (FormSubmission.json_editor_parse (form pairs)).
Proof.
  intros pairs _ Hall. unfold json_editor_parse, FormSubmission.json_editor_parse, form.
  cbn [dict_items]. intros Hguard.
  rewrite parse_items_single_level.
  2:{ rewrite Forall_map. exact Hall. }
  cbn [bind]. rewrite indexed_dicts_to_lists_dict, Hguard. f_equal. f_equal.
  apply normalized_items_strings.
  - apply stripped_loop_keys_nodup. constructor.
  - apply stripped_loop_values; [| constructor].
    unfold values. rewrite map_map. apply Forall_map. apply Forall_forall.
    intros kv _. exists (snd kv). reflexivity.
Qed.

Lemma decoder_agrees_with_form_submission_witness :
  json_editor_parse (form [("root[name]", "John Doe"); ("age", "30"); ("root[job]", "UX")])
  = Ok (FormSubmission.json_editor_parse
          (form [("root[name]", "John Doe"); ("age", "30"); ("root[job]", "UX")])).
Proof.
  apply (decoder_agrees_with_form_submission
           [("root[name]", "John Doe"); ("age", "30"); ("root[job]", "UX")]).
  - reflexivity.
  - repeat constructor.
  - reflexivity.
Defined.

(** * The handlers of the application *)

Lemma position_in_range (len : nat) (i : Z) (n : nat) :
  App.position len i = Some n -> n < len.
Proof.
  unfold App.position.
  destruct (0 <=? i)%Z eqn:H0.
  - destruct (i <? Z.of_nat len)%Z eqn:H1; [| discriminate].
    intros [= <-]. apply Z.leb_le in H0. apply Z.ltb_lt in H1. lia.
  - destruct (- Z.of_nat len <=? i)%Z eqn:H1; [| discriminate].
    intros [= <-]. apply Z.leb_gt in H0. apply Z.leb_le in H1. lia.
Qed.

Lemma position_none (len : nat) (i : Z) :
  App.position len i = None <-> (Z.of_nat len <= i \/ i < - Z.of_nat len)%Z.
Proof.
  unfold App.position.
  destruct (0 <=? i)%Z eqn:H0.
  - apply Z.leb_le in H0. destruct (i <? Z.of_nat len)%Z eqn:H1.
    + apply Z.ltb_lt in H1. split; [discriminate | lia].
    + apply Z.ltb_ge in H1. split; [intros _; left; exact H1 | reflexivity].
  - apply Z.leb_gt in H0. destruct (- Z.of_nat len <=? i)%Z eqn:H1.
    + apply Z.leb_le in H1. split; [discriminate | lia].
    + apply Z.leb_gt in H1. split; [intros _; right; exact H1 | reflexivity].
Qed.

Lemma position_nonnegative (len : nat) (n : nat) :
  n < len -> App.position len (Z.of_nat n) = Some n.
Proof.
  intros Hn. unfold App.position.
  destruct (0 <=? Z.of_nat n)%Z eqn:H0; [| apply Z.leb_gt in H0; lia].
  destruct (Z.of_nat n <? Z.of_nat len)%Z eqn:H1; [| apply Z.ltb_ge in H1; lia].
  rewrite Nat2Z.id. reflexivity.
Qed.

Lemma position_negative (len : nat) (k : nat) :
  k < len -> App.position len (- Z.of_nat (S k)) = Some (len - S k).
Proof.
  intros Hk. unfold App.position.
  destruct (0 <=? - Z.of_nat (S k))%Z eqn:H0; [apply Z.leb_le in H0; lia |].
  destruct (- Z.of_nat len <=? - Z.of_nat (S k))%Z eqn:H1; [| apply Z.leb_gt in H1; lia].
  f_equal. lia.
Qed.

Lemma replace_length {A} (n : nat) (x : A) (xs : list A) :
  length (App.replace n x xs) = length xs.
Proof.
  revert n. induction xs as [| y rest IH]; intros [| m]; simpl; try reflexivity.
  rewrite IH. reflexivity.
Qed.

Lemma replace_nth_error_same {A} (n : nat) (x : A) (xs : list A) :
  n < length xs -> nth_error (App.replace n x xs) n = Some x.
Proof.
  revert n. induction xs as [| y rest IH]; intros [| m] Hn; simpl in *; try lia.
  - reflexivity.
  - apply IH. lia.
Qed.

Lemma replace_nth_error_other {A} (n j : nat) (x : A) (xs : list A) :
  j <> n -> nth_error (App.replace n x xs) j = nth_error xs j.
Proof.
  revert n j. induction xs as [| y rest IH]; intros [| m] [| j] Hne; simpl;
    try reflexivity; try contradiction.
  apply IH. congruence.
Qed.

Lemma replace_middle {A} (pre : list A) (m x : A) (post : list A) :
  App.replace (length pre) x (pre ++ m :: post) = pre ++ x :: post.
Proof. induction pre as [| y pre IH]; simpl; [reflexivity | rewrite IH; reflexivity]. Qed.

Lemma enumerate_from_snoc {A} (xs : list A) (x : A) : forall i,
  enumerate_from i (xs ++ [x]) = enumerate_from i xs ++ [(i + length xs, x)].
Proof.
  induction xs as [| y xs IH]; intros i; simpl.
  - rewrite Nat.add_0_r. reflexivity.
  - rewrite IH, Nat.add_succ_r. reflexivity.
Qed.

Lemma concat_empty_snoc (l : list string) (x : string) :
  String.concat "" (l ++ [x]) = (String.concat "" l ++ x)%string.
Proof.
  induction l as [| y l IH]; [reflexivity |].
  destruct l as [| z l].
  - simpl. reflexivity.
  - change (String.concat "" ((y :: z :: l) ++ [x]))
      with (y ++ "" ++ String.concat "" ((z :: l) ++ [x]))%string.
    rewrite IH.
    change (String.concat "" (y :: z :: l)) with (y ++ "" ++ String.concat "" (z :: l))%string.
    cbn [append]. rewrite append_assoc. reflexivity.
Qed.

Section HandlerFacts.

Variable Person : Type.
Variable html_home : string -> string.
Variable html_person : Person -> nat -> string.
Variable html_edit : Person -> Z -> string.

Lemma snippets_snoc (models : list Person) (model : Person) :
  App.snippets Person html_person 0 (models ++ [model])
  = (App.snippets Person html_person 0 models ++ html_person model (length models))%string.
Proof.
  unfold App.snippets. rewrite enumerate_from_snoc, map_app. cbn [map fst snd].
  apply concat_empty_snoc.
Qed.

Lemma person_at (models : list Person) (index : Z) (n : nat) (model : Person) :
  App.position (length models) index = Some n ->
  nth_error models n = Some model ->
  App.person Person html_edit models index
  = {| App.status_code := 200; App.content := html_edit model index |}.
Proof.
  intros Hpos Hnth. unfold App.person, App.getitem. rewrite Hpos, Hnth. reflexivity.
Qed.

End HandlerFacts.

(** X19. A person that is created is served: after [POST /] the new
    person is the last of the list and its edit page is served at the
    index that was the length of the list, the persons that were there
    are served at the indices they had, and the page returned lists the
    snippets of the persons in order, that of the new person last. *)
Theorem created_person_is_served :
  forall (Person : Type) (html_home : string -> string)
         (html_person : Person -> nat -> string) (html_edit : Person -> Z -> string)
         (models : list Person) (model : Person),
    App.person Person html_edit
      (snd (App.create_person Person html_home html_person models model))
      (Z.of_nat (length models))
    = {| App.status_code := 200;
         App.content := html_edit model (Z.of_nat (length models)) |} /\
    (forall n : nat,
        n < length models ->
        App.person Person html_edit
          (snd (App.create_person Person html_home html_person models model)) (Z.of_nat n)
        = App.person Person html_edit models (Z.of_nat n)) /\
    fst (App.create_person Person html_home html_person models model)
    = {| App.status_code := 200;
         App.content :=
           html_home (App.snippets Person html_person 0 models
                      ++ html_person model (length models))%string |}.
Proof.
  intros Person html_home html_person html_edit models model.
  cbn [App.create_person fst snd]. split; [| split].
  - apply (person_at Person html_edit _ _ (length models)).
    + apply position_nonnegative. rewrite length_app. simpl. lia.
    + rewrite nth_error_app2, Nat.sub_diag by lia. reflexivity.
  - intros n Hn. unfold App.person, App.getitem.
    rewrite !position_nonnegative by (try rewrite length_app; simpl; lia).
    rewrite nth_error_app1 by exact Hn. reflexivity.
  - unfold App.people. rewrite snippets_snoc. reflexivity.
Qed.

Lemma created_person_is_served_witness :
  App.person string (fun p _ => p)
    (snd (App.create_person string (fun s => s) (fun p _ => p) ["John"] "Jane")) (Z.of_nat 0)
  = App.person string (fun p _ => p) ["John"] (Z.of_nat 0).
Proof.
  apply (proj1 (proj2 (created_person_is_served string (fun s => s) (fun p _ => p)
                         (fun p _ => p) ["John"] "Jane")) 0).
  simpl. lia.
Defined.

(** X20. An update replaces one person: when the index names a place of
    the list, [POST /{index}] answers with the edit page of the new
    person, the list keeps its length, holds the new person at that
    place and the persons it held at every other place, and [GET
    /{index}] then gives the page the update gave. *)
Theorem update_replaces_one_person :
  forall (Person : Type) (html_edit : Person -> Z -> string)
         (models : list Person) (index : Z) (model : Person) (n : nat),
    App.position (length models) index = Some n ->
    exists models',
      App.update_person Person html_edit models index model
      = ({| App.status_code := 200; App.content := html_edit model index |}, models') /\
      length models' = length models /\
      nth_error models' n = Some model /\
      (forall j, j <> n -> nth_error models' j = nth_error models j) /\
      App.person Person html_edit models' index
      = {| App.status_code := 200; App.content := html_edit model index |}.
Proof.
  intros Person html_edit models index model n Hpos.
  pose proof (position_in_range _ _ _ Hpos) as Hn.
  exists (App.replace n model models).
  split; [| split; [| split; [| split]]].
  - unfold App.update_person, App.setitem. rewrite Hpos. reflexivity.
  - apply replace_length.
  - apply replace_nth_error_same. exact Hn.
  - intros j Hj. apply replace_nth_error_other. exact Hj.
  - apply (person_at Person html_edit _ _ n).
    + rewrite replace_length. exact Hpos.
    + apply replace_nth_error_same. exact Hn.
Qed.

Lemma update_replaces_one_person_witness :
  exists models',
    App.update_person string (fun p _ => p) ["John"; "Jane"] 1 "Joan"
    = ({| App.status_code := 200; App.content := "Joan" |}, models') /\
    length models' = length ["John"; "Jane"] /\
    nth_error models' 1 = Some "Joan" /\
    (forall j, j <> 1 -> nth_error models' j = nth_error ["John"; "Jane"] j) /\
    App.person string (fun p _ => p) models' 1
    = {| App.status_code := 200; App.content := "Joan" |}.
Proof.
  apply (update_replaces_one_person string (fun p _ => p) ["John"; "Jane"] 1%Z "Joan" 1).
  reflexivity.
Defined.

(** X21. An index is not found exactly when it is out of range: [GET
    /{index}] answers 404 if and only if the index is at least the
    length of the list or below minus the length, and for such an index
    [POST /{index}] answers [404 Not Found] and leaves the list as it
    is; it does not append, not even at the index that is the length. *)
Theorem out_of_range_is_not_found :
  forall (Person : Type) (html_edit : Person -> Z -> string)
         (models : list Person) (index : Z),
    (App.status_code (App.person Person html_edit models index) = 404%Z <->
     (Z.of_nat (length models) <= index \/ index < - Z.of_nat (length models))%Z) /\
    ((Z.of_nat (length models) <= index \/ index < - Z.of_nat (length models))%Z ->
     App.person Person html_edit models index = App.not_found /\
     forall model, App.update_person Person html_edit models index model
                   = (App.not_found, models)).
Proof.
  intros Person html_edit models index.
  assert (Hout : (Z.of_nat (length models) <= index \/ index < - Z.of_nat (length models))%Z ->
                 App.person Person html_edit models index = App.not_found /\
                 forall model, App.update_person Person html_edit models index model
                               = (App.not_found, models)).
  { intros Hrange. apply position_none in Hrange.
    unfold App.person, App.update_person, App.getitem, App.setitem. rewrite Hrange.
    split; [reflexivity | intros model; reflexivity]. }
  split; [| exact Hout]. split.
  - intros Hstatus. apply position_none.
    destruct (App.position (length models) index) as [n |] eqn:Hpos; [| reflexivity].
    exfalso. pose proof (position_in_range _ _ _ Hpos) as Hn.
    unfold App.person, App.getitem in Hstatus. rewrite Hpos in Hstatus.
    destruct (nth_error models n) eqn:Hnth.
    + discriminate Hstatus.
    + apply nth_error_None in Hnth. lia.
  - intros Hrange. destruct (Hout Hrange) as [-> _]. reflexivity.
Qed.

Lemma out_of_range_is_not_found_witness :
  App.person string (fun p _ => p) ["John"; "Jane"] 2 = App.not_found /\
  forall model, App.update_person string (fun p _ => p) ["John"; "Jane"] 2 model
                = (App.not_found, ["John"; "Jane"]).
Proof.
  apply (proj2 (out_of_range_is_not_found string (fun p _ => p) ["John"; "Jane"] 2%Z)).
  simpl. lia.
Defined.

(** X22. A negative index counts from the end: the person with [k]
    persons after it is served by [GET] at the index [-(k+1)], with that
    negative index in its page, and [POST] at that index replaces this
    person and no other. *)
Theorem negative_index_counts_from_the_end :
  forall (Person : Type) (html_edit : Person -> Z -> string)
         (pre post : list Person) (m model : Person),
    App.person Person html_edit (pre ++ m :: post) (- Z.of_nat (S (length post)))
    = {| App.status_code := 200;
         App.content := html_edit m (- Z.of_nat (S (length post)))%Z |} /\
    App.update_person Person html_edit (pre ++ m :: post) (- Z.of_nat (S (length post))) model
    = ({| App.status_code := 200;
          App.content := html_edit model (- Z.of_nat (S (length post)))%Z |},
       pre ++ model :: post).
Proof.
  intros Person html_edit pre post m model.
  assert (Hpos : App.position (length (pre ++ m :: post)) (- Z.of_nat (S (length post)))
                 = Some (length pre)).
  { rewrite position_negative by (rewrite length_app; simpl; lia).
    f_equal. rewrite length_app. simpl. lia. }
  split.
  - apply (person_at Person html_edit _ _ (length pre) m Hpos).
    rewrite nth_error_app2, Nat.sub_diag by lia. reflexivity.
  - unfold App.update_person, App.setitem. rewrite Hpos, replace_middle. reflexivity.
Qed.
